(** * quiz.py: question bank, quiz generation, grading and metrics

    A shallow embedding of [quiz.py] and the properties of its selection,
    grading, scoring, persistence and metrics code.

    Conventions of the embedding.
    - A Python [str] is a [string]; each character stands for the code point
      of the same number (0..255), so [lower], [strip] and [int] below follow
      Python's behaviour on those code points.
    - A Python [int] is a [Z]; a [float] is a binary64 floating-point number;
      [None] for an [Optional] field is [None].
    - A [dict] used as a map is a [gmap]; a [dict] that is iterated is an
      association list in insertion order.
    - Statements that read files, read the terminal or draw random numbers
      run in the monad [M] over the record [world]; an exception is the
      result [Raise].  [print] does not change any value the functions
      return and is left out. *)

From Stdlib Require Import ZArith PrimFloat Ascii String List Bool Lia.
From stdpp Require Import base gmap list strings pretty.

Local Open Scope Z_scope.

(** ** Python strings *)

Module Py.

(** [c.isspace()] for a code point below 256: TAB..CR, FS..US, SPACE, NEL
    and NBSP. *)
Definition isspace (c : ascii) : bool :=
  let n := nat_of_ascii c in
  ((9 <=? n) && (n <=? 13) || (28 <=? n) && (n <=? 32)
   || (n =? 133) || (n =? 160))%nat.

(** [c.lower()] for a code point below 256: A..Z and the Latin-1 capitals
    (all of 192..222 but the multiplication sign 215) move up by 32. *)
Definition lower_char (c : ascii) : ascii :=
  let n := nat_of_ascii c in
  if ((65 <=? n) && (n <=? 90)
      || (192 <=? n) && (n <=? 222) && negb (n =? 215))%nat
  then ascii_of_nat (n + 32) else c.

(** [s.lower()] *)
Fixpoint lower (s : string) : string :=
  match s with
  | EmptyString => EmptyString
  | String c s' => String (lower_char c) (lower s')
  end.

Fixpoint lstrip (s : string) : string :=
  match s with
  | EmptyString => EmptyString
  | String c s' => if isspace c then lstrip s' else s
  end.

Fixpoint rstrip (s : string) : string :=
  match s with
  | EmptyString => EmptyString
  | String c s' =>
      match rstrip s' with
      | EmptyString => if isspace c then EmptyString else String c EmptyString
      | r => String c r
      end
  end.

(** [s.strip()]: whitespace removed from both ends. *)
Definition strip (s : string) : string := rstrip (lstrip s).

Definition digit_of (c : ascii) : option Z :=
  let n := nat_of_ascii c in
  if ((48 <=? n) && (n <=? 57))%nat then Some (Z.of_nat (n - 48)) else None.

(** The digits of a decimal literal as [int] reads them: at least one digit,
    and single underscores only between two digits. [prev] tells whether the
    character before was a digit. *)
Fixpoint int_digits (acc : Z) (prev : bool) (s : string) : option Z :=
  match s with
  | EmptyString => if prev then Some acc else None
  | String c s' =>
      match digit_of c with
      | Some d => int_digits (10 * acc + d) true s'
      | None =>
          if Ascii.eqb c "_"%char && prev then int_digits acc false s' else None
      end
  end.

(** The whitespace [int] skips around a numeral: TAB..CR and SPACE, and NEL
    and NBSP, which it first turns into spaces.  Unlike [strip] it does not
    skip FS..US. *)
Definition int_space (c : ascii) : bool :=
  let n := nat_of_ascii c in
  ((9 <=? n) && (n <=? 13) || (n =? 32) || (n =? 133) || (n =? 160))%nat.

Fixpoint int_lskip (s : string) : string :=
  match s with
  | EmptyString => EmptyString
  | String c s' => if int_space c then int_lskip s' else s
  end.

Fixpoint int_rskip (s : string) : string :=
  match s with
  | EmptyString => EmptyString
  | String c s' =>
      match int_rskip s' with
      | EmptyString => if int_space c then EmptyString else String c EmptyString
      | r => String c r
      end
  end.

Definition int_skip (s : string) : string := int_rskip (int_lskip s).

(** A numeral: an optional sign, then the digits. *)
Definition numeral (s : string) : option Z :=
  match s with
  | EmptyString => None
  | String c s' =>
      if Ascii.eqb c "-"%char then Z.opp <$> int_digits 0 false s'
      else if Ascii.eqb c "+"%char then int_digits 0 false s'
      else int_digits 0 false (String c s')
  end.

(** The number of decimal digits in a string, and the interpreter's limit on
    it for conversions between [int] and [str]
    ([sys.get_int_max_str_digits()], 4300 unless changed). *)
Fixpoint count_digits (s : string) : nat :=
  match s with
  | EmptyString => 0
  | String c s' =>
      match digit_of c with
      | Some _ => S (count_digits s')
      | None => count_digits s'
      end
  end.

Definition int_max_str_digits : Z := 4300.

(** [int(s)] for a [str]: [None] is [ValueError].  Surrounding whitespace is
    skipped; a numeral of more digits than the limit is refused. *)
Definition int (s : string) : option Z :=
  let t := int_skip s in
  if int_max_str_digits <? Z.of_nat (count_digits t) then None
  else numeral t.

(** [str(n)] for an [int]: [None] is the [ValueError] for a number of more
    digits than the limit. *)
Definition str (n : Z) : option string :=
  let s := pretty n in
  if int_max_str_digits <? Z.of_nat (count_digits s) then None
  else Some s.

(** [float(n)] for a natural number, as the operands of [/] and [*] are
    converted: exact for every number below 2^53, which is more than a list
    can hold. *)
Fixpoint float_of_pos (p : positive) : float :=
  match p with
  | xH => 1
  | xO p => 2 * float_of_pos p
  | xI p => 2 * float_of_pos p + 1
  end%float.

Definition float (n : nat) : float :=
  match N.of_nat n with
  | N0 => 0%float
  | Npos p => float_of_pos p
  end.

(** Predicates on strings used to state facts about [strip]: the first
    character is no whitespace; no character is whitespace. *)
Definition starts_clean (s : string) : Prop :=
  match s with EmptyString => True | String c _ => isspace c = false end.

Fixpoint spaceless (s : string) : Prop :=
  match s with
  | EmptyString => True
  | String c s' => isspace c = false ∧ spaceless s'
  end.

(** Truth value of an [Optional[str]] and of an [Optional[int]]. *)
Definition truthy_str (s : option string) : bool :=
  match s with
  | Some s => negb (String.eqb s "")
  | None => false
  end.

Definition truthy_int (n : option Z) : bool :=
  match n with
  | Some n => negb (n =? 0)
  | None => false
  end.

End Py.

(** ** Exceptions, results and the state of the outside world *)

Inductive exn :=
  | TypeError | ValueError | AttributeError | EOFError
  | FileNotFoundError | JSONDecodeError | UnpicklingError.

(** The result of a statement: a value, a raised exception, or [Untyped]
    for a bank record whose values do not have the types the dataclass
    declares (Python builds such a [Question] without complaint; the typed
    record [Question.t] below cannot hold it, and nothing is claimed about
    it). *)
Inductive result (A : Type) :=
  | Ok (a : A)
  | Raise (e : exn)
  | Untyped.
Arguments Ok {A} a.
Arguments Raise {A} e.
Arguments Untyped {A}.

#[local] Set Warnings "-register-all".

(** A parsed JSON document, as [json.load] returns it (no floats). An object
    is a [dict]: its keys in insertion order. *)
Inductive json :=
  | JNull
  | JBool (b : bool)
  | JInt (n : Z)
  | JStr (s : string)
  | JList (l : list json)
  | JObj (o : list (string * json)).

(** One entry of [QuizRunner.metrics]: the dict with keys "asked" and
    "correct". *)
Record Stats := { asked : Z; correct_count : Z }.

(** A file is a JSON document or a pickled metrics mapping. *)
Inductive file :=
  | JsonFile (data : json)
  | PickleFile (m : gmap Z Stats).

(** The seedable random source: the raw draws still to come. *)
Definition rng := list nat.

Record world := {
  fs : gmap string file;      (* the files, by path *)
  stdin : list string;        (* the lines [input()] will return *)
  random : rng                (* the module-level generator of [random] *)
}.

Definition M (A : Type) : Type := world → result A * world.

Definition ret {A} (a : A) : M A := λ w, (Ok a, w).
Definition bind {A B} (m : M A) (k : A → M B) : M B := λ w,
  match m w with
  | (Ok a, w') => k a w'
  | (Raise e, w') => (Raise e, w')
  | (Untyped, w') => (Untyped, w')
  end.

#[global] Instance M_ret : MRet M := @ret.
#[global] Instance M_bind : MBind M := λ A B k m, bind m k.

(** [input(...)]: the next line of the terminal, [EOFError] at its end. *)
Definition input : M string := λ w,
  match stdin w with
  | [] => (Raise EOFError, w)
  | line :: rest =>
      (Ok line, {| fs := fs w; stdin := rest; random := random w |})
  end.

(** ** The module [random], by its contract *)

Module Random.

(** [randbelow n]: the next raw draw reduced below [n]. *)
Definition randbelow (n : nat) (g : rng) : nat * rng :=
  match g with
  | [] => (0%nat, [])
  | r :: g' => ((r mod n)%nat, g')
  end.

(** [k] draws without replacement: each draw picks a position of what is
    left of the pool and removes it. *)
Fixpoint draw {A} (pool : list A) (k : nat) (g : rng) : list A * rng :=
  match k with
  | O => ([], g)
  | S k' =>
      let '(j, g) := randbelow (length pool) g in
      match pool !! j with
      | Some x => let '(xs, g) := draw (delete j pool) k' g in (x :: xs, g)
      | None => ([], g)
      end
  end.

(** [random.sample(population, k)]: [ValueError] when [k] is negative or
    larger than the population. *)
Definition sample {A} (population : list A) (k : Z) : M (list A) := λ w,
  if (k <? 0) || (Z.of_nat (length population) <? k) then (Raise ValueError, w)
  else
    let '(xs, g) := draw population (Z.to_nat k) (random w) in
    (Ok xs, {| fs := fs w; stdin := stdin w; random := g |}).

(** [random.shuffle(x)]: the list in a random order. The caller stores the
    result back where the list lives. *)
Definition shuffle {A} (x : list A) : M (list A) := λ w,
  let '(xs, g) := draw x (length x) (random w) in
  (Ok xs, {| fs := fs w; stdin := stdin w; random := g |}).

End Random.

(** ** Question and QuestionBank *)

Module Question.

Record t := mk {
  id : Z;
  question : string;
  type : string;                      (* "mcq" or "short" *)
  difficulty : string;
  topic : string;
  tags : list string;
  explanation : string;
  choices : option (list string);
  correct : option Z;
  answer : option string
}.

Definition required : list string :=
  ["id"; "question"; "type"; "difficulty"; "topic"; "tags"; "explanation"].
Definition fields : list string := required ++ ["choices"; "correct"; "answer"].

(** [kw.get(k)] of a dict in insertion order. *)
Fixpoint get (k : string) (kw : list (string * json)) : option json :=
  match kw with
  | [] => None
  | (k', v) :: kw' => if String.eqb k k' then Some v else get k kw'
  end.

Definition has (kw : list (string * json)) (k : string) : bool :=
  match get k kw with Some _ => true | None => false end.

(** Values of the declared types. *)
Definition as_int (v : json) : option Z :=
  match v with JInt n => Some n | _ => None end.
Definition as_str (v : json) : option string :=
  match v with JStr s => Some s | _ => None end.
Definition as_strs (v : json) : option (list string) :=
  match v with JList l => mapM as_str l | _ => None end.
(** An [Optional] field: absent or [null] is [None]. *)
Definition as_opt {A} (f : json → option A) (v : option json)
  : option (option A) :=
  match v with
  | None | Some JNull => Some None
  | Some v => Some <$> f v
  end.

(** The generated [__init__], called with the dict [kw] unpacked into
    keyword arguments. A keyword that is no field,
    or a missing field without default, is a [TypeError]; [choices],
    [correct] and [answer] default to [None]. No value is checked. *)
Definition init (kw : list (string * json)) : result t :=
  if negb (forallb (λ k, bool_decide (k ∈ fields)) kw.*1) then Raise TypeError
  else if negb (forallb (has kw) required) then Raise TypeError
  else
    match
      (i ← get "id" kw ≫= as_int;
       q ← get "question" kw ≫= as_str;
       ty ← get "type" kw ≫= as_str;
       d ← get "difficulty" kw ≫= as_str;
       tp ← get "topic" kw ≫= as_str;
       tg ← get "tags" kw ≫= as_strs;
       e ← get "explanation" kw ≫= as_str;
       ch ← as_opt as_strs (get "choices" kw);
       co ← as_opt as_int (get "correct" kw);
       an ← as_opt as_str (get "answer" kw);
       Some (mk i q ty d tp tg e ch co an))
    with
    | Some q => Ok q
    | None => Untyped
    end.

Definition of_opt {A} (f : A → json) (v : option A) : json :=
  match v with Some a => f a | None => JNull end.
Definition of_strs (l : list string) : json := JList (JStr <$> l).

(** [q.__dict__]: every field, in declaration order. *)
Definition dict (q : t) : list (string * json) :=
  [("id", JInt (id q)); ("question", JStr (question q));
   ("type", JStr (type q)); ("difficulty", JStr (difficulty q));
   ("topic", JStr (topic q)); ("tags", of_strs (tags q));
   ("explanation", JStr (explanation q));
   ("choices", of_opt of_strs (choices q));
   ("correct", of_opt JInt (correct q));
   ("answer", of_opt JStr (answer q))].

(** The record of a question as a bank file may give it: the seven common
    fields, and of [choices], [correct] and [answer] only those that are not
    [None]. *)
Definition opt_entry {A} (k : string) (f : A → json) (v : option A)
  : list (string * json) :=
  match v with Some a => [(k, f a)] | None => [] end.

Definition sparse (q : t) : list (string * json) :=
  [("id", JInt (id q)); ("question", JStr (question q));
   ("type", JStr (type q)); ("difficulty", JStr (difficulty q));
   ("topic", JStr (topic q)); ("tags", of_strs (tags q));
   ("explanation", JStr (explanation q))]
  ++ opt_entry "choices" of_strs (choices q)
  ++ opt_entry "correct" JInt (correct q)
  ++ opt_entry "answer" JStr (answer q).

(** An element of the "questions" list that the constructor accepts as far
    as its keys go: an object, every key a field, no field without default
    missing. *)
Definition well_keyed (j : json) : Prop :=
  match j with
  | JObj kw => kw.*1 ⊆ fields ∧ required ⊆ kw.*1
  | _ => False
  end.

End Question.

Module QuestionBank.

Record t := mk { questions : list Question.t }.

(** The records of [data.get("questions", [])], as the comprehension
    iterates them: a list gives its elements; an empty string or object gives
    nothing; a non-empty string or object gives strings, and unpacking a
    string is a [TypeError]; anything else cannot be iterated. *)
Definition records (data : json) : result (list json) :=
  match data with
  | JObj o =>
      match Question.get "questions" o with
      | None => Ok []
      | Some (JList l) => Ok l
      | Some (JStr EmptyString) | Some (JObj []) => Ok []
      | Some _ => Raise TypeError
      end
  | _ => Raise AttributeError
  end.

(** The comprehension over the records.  The first element that is no
    object, or whose keys the constructor refuses, raises; values of other
    types than declared do not stop it, so they matter only when nothing
    raises. *)
Fixpoint init_all (l : list json) : result (list Question.t) :=
  match l with
  | [] => Ok []
  | JObj kw :: l' =>
      match Question.init kw with
      | Raise e => Raise e
      | r =>
          match init_all l', r with
          | Raise e, _ => Raise e
          | Ok qs, Ok q => Ok (q :: qs)
          | _, _ => Untyped
          end
      end
  | _ :: _ => Raise TypeError
  end.

Definition loads (data : json) : result t :=
  match records data with
  | Ok l =>
      match init_all l with
      | Ok qs => Ok (mk qs)
      | Raise e => Raise e
      | Untyped => Untyped
      end
  | Raise e => Raise e
  | Untyped => Untyped
  end.

Definition from_json (path : string) : M t := λ w,
  match fs w !! path with
  | None => (Raise FileNotFoundError, w)
  | Some (PickleFile _) => (Raise JSONDecodeError, w)
  | Some (JsonFile data) => (loads data, w)
  end.

Definition dumps (self : t) : json :=
  JObj [("questions", JList (JObj ∘ Question.dict <$> questions self))].

Definition to_json (self : t) (path : string) : M unit := λ w,
  (Ok (), {| fs := <[path := JsonFile (dumps self)]> (fs w);
             stdin := stdin w; random := random w |}).

(** [filter]: a criterion that is [None] or the empty string is not
    applied. *)
Definition filter (self : t) (topic difficulty : option string)
  : list Question.t :=
  let result := questions self in
  let result :=
    if Py.truthy_str topic
    then base.filter (λ q, Some (Question.topic q) = topic) result
    else result in
  let result :=
    if Py.truthy_str difficulty
    then base.filter (λ q, Some (Question.difficulty q) = difficulty) result
    else result in
  result.

End QuestionBank.

(** ** QuizConfig, QuizQuestion, QuizResult *)

Module QuizConfig.
Record t := mk {
  counts_by_difficulty : list (string * Z);   (* a dict, in insertion order *)
  topic : option string
}.
End QuizConfig.

(** What [user_answer] holds: the text typed, or the index parsed from it. *)
Inductive answer :=
  | AnsStr (s : string)
  | AnsInt (n : Z).

Module QuizQuestion.
Record t := mk {
  question : Question.t;
  user_answer : answer;
  is_correct : bool
}.
End QuizQuestion.

(** One entry of [QuizResult.details]. *)
Module Detail.
Record t := mk {
  question : string;
  user_answer : answer;
  is_correct : bool;
  explanation : string
}.
End Detail.

Module QuizResult.
Record t := mk {
  quiz_questions : list QuizQuestion.t;
  score : float;        (* a binary64 floating-point number *)
  details : list Detail.t
}.
End QuizResult.

(** ** QuizGenerator *)

Module QuizGenerator.

(** The loop over [config.counts_by_difficulty.items()]. *)
Fixpoint by_difficulty (bank : QuestionBank.t) (topic : option string)
    (items : list (string * Z)) (selection : list Question.t)
  : M (list Question.t) :=
  match items with
  | [] => mret selection
  | (diff, count) :: items' =>
      let pool := QuestionBank.filter bank topic (Some diff) in
      match pool with
      | [] => by_difficulty bank topic items' selection
      | _ =>
          drawn ← Random.sample pool (Z.min count (Z.of_nat (length pool)));
          by_difficulty bank topic items' (selection ++ drawn)
      end
  end.

(** What one pair [(diff, count)] of the policy contributes, used to state
    the properties of the loop: [drawn] has [min count (len pool)] questions,
    it is a sub-multiset of the pool (no position of the pool is used twice),
    and it is the whole pool when [count] reaches the size of the pool. *)
Definition contribution (bank : QuestionBank.t) (topic : option string)
    (item : string * Z) (drawn : list Question.t) : Prop :=
  let pool := QuestionBank.filter bank topic (Some item.1) in
  length drawn = Z.to_nat (Z.min item.2 (Z.of_nat (length pool))) ∧
  drawn ⊆+ pool ∧
  (Z.of_nat (length pool) ≤ item.2 → drawn ≡ₚ pool).

(** [generate_quiz] returns the selection and the bank as the call leaves
    it: without counts, without a number and without a topic, [selection] is
    the very list [self.bank.questions], which [random.shuffle] then reorders
    in place. *)
Definition generate_quiz (bank : QuestionBank.t) (config : QuizConfig.t)
    (num_questions : option Z) : M (list Question.t * QuestionBank.t) :=
  match QuizConfig.counts_by_difficulty config with
  | _ :: _ =>
      selection ← by_difficulty bank (QuizConfig.topic config)
                    (QuizConfig.counts_by_difficulty config) [];
      selection ← Random.shuffle selection;
      mret (selection, bank)
  | [] =>
      let pool := QuestionBank.filter bank (QuizConfig.topic config) None in
      if Py.truthy_int num_questions then
        selection ← Random.sample pool
          (Z.min (default 0 num_questions) (Z.of_nat (length pool)));
        selection ← Random.shuffle selection;
        mret (selection, bank)
      else
        selection ← Random.shuffle pool;
        mret (selection,
              if Py.truthy_str (QuizConfig.topic config) then bank
              else QuestionBank.mk selection)
  end.

End QuizGenerator.

(** ** QuizRunner *)

Module QuizRunner.

(** [self.metrics] *)
Abbreviation metrics := (gmap Z Stats).

(** [QuizRunner()] *)
Definition init : metrics := ∅.

(** The two branches of [ask_question] between [input] and the update of
    the metrics: the value left in [user_answer] and [is_correct], from the
    line the user typed. *)
Definition grade (q : Question.t) (line : string) : answer * bool :=
  if String.eqb (Question.type q) "mcq" then
    let user_answer := Py.strip line in
    match Py.int user_answer with
    | Some n =>
        let user_idx := n - 1 in
        (AnsInt user_idx,
         match Question.correct q with
         | Some c => user_idx =? c
         | None => false
         end)
    | None => (AnsStr user_answer, false)             (* except ValueError *)
    end
  else
    let user_answer := Py.lower (Py.strip line) in
    (AnsStr user_answer,
     String.eqb user_answer (Py.lower (default "" (Question.answer q)))).

(** [setdefault] followed by the two increments; the inner dict is the one
    stored in the map, so the increments show in [self.metrics]. *)
Definition record (self : metrics) (qid : Z) (is_correct : bool) : metrics :=
  let stats := default {| asked := 0; correct_count := 0 |} (self !! qid) in
  <[qid := {| asked := asked stats + 1;
              correct_count := if is_correct then correct_count stats + 1
                               else correct_count stats |}]> self.

Definition ask_question (self : metrics) (q : Question.t)
  : M (QuizQuestion.t * metrics) :=
  line ← input;
  let '(user_answer, is_correct) := grade q line in
  mret (QuizQuestion.mk q user_answer is_correct,
        record self (Question.id q) is_correct).

(** [[self.ask_question(q) for q in questions]] *)
Fixpoint ask_all (self : metrics) (questions : list Question.t)
  : M (list QuizQuestion.t * metrics) :=
  match questions with
  | [] => mret ([], self)
  | q :: questions' =>
      '(qq, self) ← ask_question self q;
      '(qqs, self) ← ask_all self questions';
      mret (qq :: qqs, self)
  end.

Definition correct_answers (quiz_questions : list QuizQuestion.t) : nat :=
  length (List.filter QuizQuestion.is_correct quiz_questions).

(** [correct_answers / len(quiz_questions) * 100] in floating point: the
    quotient is rounded, then the product. *)
Definition score_of (quiz_questions : list QuizQuestion.t) : float :=
  match quiz_questions with
  | [] => 0
  | _ => Py.float (correct_answers quiz_questions)
         / Py.float (length quiz_questions) * 100
  end%float.

Definition detail (q : QuizQuestion.t) : Detail.t :=
  Detail.mk (Question.question (QuizQuestion.question q))
            (QuizQuestion.user_answer q) (QuizQuestion.is_correct q)
            (Question.explanation (QuizQuestion.question q)).

Definition run (self : metrics) (questions : list Question.t)
  : M (QuizResult.t * metrics) :=
  '(quiz_questions, self) ← ask_all self questions;
  mret (QuizResult.mk quiz_questions (score_of quiz_questions)
          (detail <$> quiz_questions),
        self).

End QuizRunner.

(** ** Metrics files and the program *)

Definition save_metrics (runner : QuizRunner.metrics) (path : string)
  : M unit := λ w,
  (Ok (), {| fs := <[path := PickleFile runner]> (fs w);
             stdin := stdin w; random := random w |}).

Definition load_metrics (path : string) : M QuizRunner.metrics := λ w,
  match fs w !! path with
  | None => (Raise FileNotFoundError, w)
  | Some (JsonFile _) => (Raise UnpicklingError, w)
  | Some (PickleFile m) => (Ok m, w)
  end.

(** The parsed command line. *)
Record args := {
  bank : string;                 (* --bank, default "questions.json" *)
  topic : option string;         (* --topic *)
  num_questions : option Z;      (* --num_questions *)
  easy : Z; medium : Z; hard : Z (* --easy --medium --hard, default 0 *)
}.

Definition main (a : args) : M QuizResult.t :=
  bank ← QuestionBank.from_json (bank a);
  let counts :=
    filter (λ '(diff, count), 0 < count)
      (zip ["easy"; "medium"; "hard"] [easy a; medium a; hard a]) in
  let cfg := QuizConfig.mk counts (topic a) in
  '(questions, bank) ← QuizGenerator.generate_quiz bank cfg (num_questions a);
  let runner := QuizRunner.init in
  '(result, runner) ← QuizRunner.run runner questions;
  mret result.

(** ** Invariant of the metrics, sample data, and the specification's wording *)

(** A statement that leaves every file as it is. *)
Definition keeps_fs {A} (m : M A) : Prop := ∀ w, fs (m w).2 = fs w.

(** For each question id, [0 <= correct <= asked]. *)
Definition metrics_ok (m : gmap Z Stats) : Prop :=
  ∀ k st, m !! k = Some st → 0 ≤ correct_count st ≤ asked st.

Module Sample.

Definition france : Question.t :=
  Question.mk 7 "Capital of France?" "short" "easy" "geo" ["europe"]
    "It is Paris." None None (Some "Paris").

(** The same question with a canonical answer that ends in a space. *)
Definition france_spaced : Question.t :=
  Question.mk 7 "Capital of France?" "short" "easy" "geo" ["europe"]
    "It is Paris." None None (Some "Paris ").

Definition sum : Question.t :=
  Question.mk 1 "2 + 2 = ?" "mcq" "easy" "math" []
    "Two and two make four." (Some ["3"; "4"; "5"]) (Some 1) None.

Definition terminal (lines : list string) : world :=
  {| fs := ∅; stdin := lines; random := [] |}.

Definition sum_bank : QuestionBank.t := QuestionBank.mk [sum].

(** [n] zeros in front of a string. *)
Fixpoint zeros (n : nat) (s : string) : string :=
  match n with
  | O => s
  | S n' => String "0" (zeros n' s)
  end.

(** The seven fields every record must have. *)
Definition common (i : Z) (ty : string) : list (string * json) :=
  [("id", JInt i); ("question", JStr "2 + 2 = ?"); ("type", JStr ty);
   ("difficulty", JStr "easy"); ("topic", JStr "math"); ("tags", JList []);
   ("explanation", JStr "Two and two make four.")].

(** A multiple-choice record without choices and correct index, a free-text
    record without answer, and a multiple-choice record whose correct index
    is beyond its two choices. *)
Definition mcq_bare : list (string * json) := common 1 "mcq".
Definition short_bare : list (string * json) := common 2 "short".
Definition mcq_beyond : list (string * json) :=
  common 3 "mcq" ++ [("choices", JList [JStr "3"; JStr "4"]); ("correct", JInt 5)].

Definition incomplete_bank : json :=
  JObj [("questions", JList [JObj mcq_bare; JObj short_bare; JObj mcq_beyond])].

(** A record without its "topic". *)
Definition no_topic_bank : json :=
  JObj [("questions",
         JList [JObj [("id", JInt 1); ("question", JStr "2 + 2 = ?");
                      ("type", JStr "short"); ("difficulty", JStr "easy");
                      ("tags", JList []); ("explanation", JStr "four");
                      ("answer", JStr "4")]])].

Definition on_disk (data : json) (lines : list string) : world :=
  {| fs := {[ "questions.json" := JsonFile data ]};
     stdin := lines; random := [] |}.

(** The bank with the one question of id 7 on disk, with or without a
    metrics snapshot next to it. *)
Definition france_disk (lines : list string) : world :=
  on_disk (QuestionBank.dumps (QuestionBank.mk [france])) lines.

Definition france_disk_snapshot (m : gmap Z Stats) (lines : list string)
  : world :=
  {| fs := <["metrics.pkl" := PickleFile m]> (fs (france_disk lines));
     stdin := lines; random := [] |}.

(** The command line without any option. *)
Definition no_args : args :=
  {| bank := "questions.json"; topic := None; num_questions := None;
     easy := 0; medium := 0; hard := 0 |}.

End Sample.

(** The wording of the specification, where it is compared with the code. *)
Module Spec.

(** Lower-cased and trimmed. *)
Definition normalized (s : string) : string := Py.lower (Py.strip s).

(** Free-text grading as worded: both the response and the canonical answer
    are normalized, then compared. *)
Definition free_text_correct (q : Question.t) (line : string) : bool :=
  String.eqb (normalized line) (normalized (default "" (Question.answer q))).

(** A record that the specification has the loader reject: type-specific
    fields missing, or the correct index outside the choice list. *)
Definition malformed (kw : list (string * json)) : bool :=
  match Question.get "type" kw with
  | Some (JStr "mcq") =>
      match Question.get "choices" kw, Question.get "correct" kw with
      | Some (JList ch), Some (JInt c) =>
          negb ((0 <=? c) && (c <? Z.of_nat (length ch)))
      | _, _ => true
      end
  | _ =>
      match Question.get "answer" kw with
      | Some (JStr _) => false
      | _ => true
      end
  end.

(** The score as worded: [100 * correctCount / totalAsked], the product of
    the integers divided by the total, and 0.0 for no question. *)
Definition score (correct total : nat) : float :=
  match total with
  | O => 0
  | _ => Py.float (100 * correct) / Py.float total
  end%float.

(** The recorded answer as worded: the raw response as given. *)
Definition recorded (line : string) : answer := AnsStr line.

End Spec.

(** * Properties *)

(** ** Python strings *)

Example lower_Paris : Py.lower "PaRiS 1" = "paris 1".
Proof. reflexivity. Qed.

Example strip_paris : Py.strip "  paris is " = "paris is".
Proof. reflexivity. Qed.

Example int_examples :
  Py.int " 12 " = Some 12 /\ Py.int "-3" = Some (-3) /\ Py.int "1_0" = Some 10
  /\ Py.int "1__0" = None /\ Py.int "_1" = None /\ Py.int "1_" = None
  /\ Py.int "" = None /\ Py.int "+" = None /\ Py.int "two" = None
  /\ Py.int "007" = Some 7 /\ Py.int "- 1" = None.
Proof. repeat split; reflexivity. Qed.

Example str_examples :
  Py.str 0 = Some "0" /\ Py.str 42 = Some "42" /\ Py.str (-7) = Some "-7".
Proof. repeat split; reflexivity. Qed.

Section strings.

Import Py.

Lemma isspace_lower_char c : isspace (lower_char c) = isspace c.
Proof. destruct c as [[] [] [] [] [] [] [] []]; reflexivity. Qed.

Lemma lower_lstrip s : lower (lstrip s) = lstrip (lower s).
Proof.
  induction s as [|c s IH]; simpl; [done|].
  rewrite isspace_lower_char. by destruct (isspace c).
Qed.

Lemma lower_rstrip s : lower (rstrip s) = rstrip (lower s).
Proof.
  induction s as [|c s IH]; simpl; [done|].
  rewrite <- IH, isspace_lower_char.
  destruct (rstrip s); simpl; [|done]. by destruct (isspace c).
Qed.

Lemma lower_strip s : lower (strip s) = strip (lower s).
Proof. unfold strip. by rewrite lower_rstrip, lower_lstrip. Qed.

Lemma lstrip_clean s : starts_clean (lstrip s).
Proof.
  induction s as [|c s IH]; simpl; [done|].
  destruct (isspace c) eqn:E; simpl; done.
Qed.

Lemma lstrip_id s : starts_clean s → lstrip s = s.
Proof. destruct s as [|c s]; simpl; [done|]. by intros ->. Qed.

Lemma rstrip_clean s : starts_clean s → starts_clean (rstrip s).
Proof.
  destruct s as [|c s]; simpl; [done|]. intros Hc.
  destruct (rstrip s); simpl; [by rewrite Hc|done].
Qed.

Lemma rstrip_idem s : rstrip (rstrip s) = rstrip s.
Proof.
  induction s as [|c s IH]; simpl; [done|].
  destruct (rstrip s) as [|c' r] eqn:E.
  - destruct (isspace c) eqn:Ec; simpl; [done|]. by rewrite Ec.
  - change (rstrip (String c (String c' r))) with
      (match rstrip (String c' r) with
       | EmptyString => if isspace c then EmptyString else String c EmptyString
       | r0 => String c r0 end).
    by rewrite IH.
Qed.

Lemma strip_idem s : strip (strip s) = strip s.
Proof.
  unfold strip. rewrite (lstrip_id (rstrip (lstrip s))).
  - apply rstrip_idem.
  - apply rstrip_clean, lstrip_clean.
Qed.

(** Strings without any whitespace are left alone by [strip]. *)
Lemma rstrip_spaceless s : spaceless s → rstrip s = s.
Proof.
  induction s as [|c s IH]; simpl; [done|]. intros [Hc Hs].
  rewrite (IH Hs), Hc. by destruct s.
Qed.

Lemma strip_spaceless s : spaceless s → strip s = s.
Proof.
  intros Hs. unfold strip. rewrite lstrip_id.
  - by apply rstrip_spaceless.
  - destruct s; simpl in *; [done|]. by destruct Hs.
Qed.

(** On a trimmed string [int] has no whitespace left to skip. *)
Lemma int_space_isspace c : int_space c = true → isspace c = true.
Proof. destruct c as [[] [] [] [] [] [] [] []]; vm_compute; congruence. Qed.

Lemma lstrip_strip s : lstrip (strip s) = strip s.
Proof. apply lstrip_id, rstrip_clean, lstrip_clean. Qed.

Lemma rstrip_strip s : rstrip (strip s) = strip s.
Proof. apply rstrip_idem. Qed.

Lemma int_lskip_id t : lstrip t = t → int_lskip t = t.
Proof.
  destruct t as [|c t]; simpl; [done|].
  destruct (int_space c) eqn:Hc; [|done].
  rewrite (int_space_isspace c Hc). intros Hl.
  assert (String.length (lstrip t) ≤ String.length t)%nat as Hlen.
  { clear. induction t as [|c t IH]; simpl; [done|].
    destruct (isspace c); simpl; lia. }
  rewrite Hl in Hlen. simpl in Hlen. lia.
Qed.

Lemma int_rskip_id t : rstrip t = t → int_rskip t = t.
Proof.
  induction t as [|c t IH]; simpl; [done|].
  destruct (rstrip t) as [|c' r] eqn:Hr.
  - destruct (isspace c) eqn:Hc; [done|]. intros [= <-]. simpl.
    destruct (int_space c) eqn:Hi; [|done].
    apply int_space_isspace in Hi. congruence.
  - intros [= <-]. by rewrite IH.
Qed.

Lemma int_skip_strip s : int_skip (strip s) = strip s.
Proof.
  unfold int_skip. rewrite int_lskip_id by apply lstrip_strip.
  apply int_rskip_id, rstrip_strip.
Qed.

Lemma int_stripped s :
  int (strip s) =
    if int_max_str_digits <? Z.of_nat (count_digits (strip s)) then None
    else numeral (strip s).
Proof. unfold int. by rewrite int_skip_strip. Qed.

(** *** [int] reads back what [str] prints *)

Lemma digit_of_pretty x :
  (x < 10)%N → digit_of (pretty_N_char x) = Some (Z.of_N x).
Proof.
  intros Hx.
  assert (x = 0 ∨ x = 1 ∨ x = 2 ∨ x = 3 ∨ x = 4 ∨ x = 5 ∨ x = 6 ∨ x = 7
          ∨ x = 8 ∨ x = 9)%N as Hc by lia.
  repeat (destruct Hc as [->|Hc]; [reflexivity|]). by subst.
Qed.

Lemma isspace_pretty x : isspace (pretty_N_char x) = false.
Proof. unfold pretty_N_char. by repeat case_match. Qed.

Lemma spaceless_pretty_go x s : spaceless s → spaceless (pretty_N_go x s).
Proof.
  revert s. induction (N.lt_wf_0 x) as [x _ IH]; intros s Hs.
  assert (x = 0 ∨ 0 < x)%N as [->|Hx] by lia.
  - by rewrite pretty_N_go_0.
  - rewrite pretty_N_go_step by done. apply IH; [by apply N.div_lt|].
    split; [apply isspace_pretty|done].
Qed.

Lemma spaceless_pretty (z : Z) : spaceless (pretty z).
Proof.
  destruct z as [|p|p]; unfold pretty, pretty_Z; simpl; [done|..].
  - unfold pretty, pretty_positive, pretty, pretty_N.
    case_decide; [done|]. by apply spaceless_pretty_go.
  - split; [done|]. unfold pretty, pretty_positive, pretty, pretty_N.
    case_decide; [done|]. by apply spaceless_pretty_go.
Qed.

Lemma strip_pretty (z : Z) : strip (pretty z) = pretty z.
Proof. apply strip_spaceless, spaceless_pretty. Qed.

Lemma int_digits_pretty_go x s :
  (0 < x)%N →
  int_digits 0 false (pretty_N_go x s) = int_digits (Z.of_N x) true s.
Proof.
  revert s. induction (N.lt_wf_0 x) as [x _ IH]; intros s Hx.
  rewrite pretty_N_go_step by done.
  pose proof (N.div_mod x 10 ltac:(done)) as Hdm.
  pose proof (N.mod_lt x 10 ltac:(done)) as Hm.
  assert (x `div` 10 = 0 ∨ 0 < x `div` 10)%N as [H0|Hpos] by lia.
  - rewrite H0, pretty_N_go_0. simpl. rewrite digit_of_pretty by done.
    f_equal. lia.
  - rewrite IH; [|by apply N.div_lt|done]. simpl.
    rewrite digit_of_pretty by done. f_equal. lia.
Qed.

Lemma int_digits_pretty_pos p :
  int_digits 0 false (pretty (N.pos p)) = Some (Z.pos p).
Proof.
  unfold pretty, pretty_N. case_decide; [done|].
  rewrite int_digits_pretty_go by lia. reflexivity.
Qed.

Lemma pretty_pos_head p :
  ∃ c s, pretty (N.pos p) = String c s ∧ is_Some (digit_of c).
Proof.
  unfold pretty, pretty_N. case_decide; [done|].
  cut (∀ x s, (∃ c s', s = String c s' ∧ is_Some (digit_of c)) →
              ∃ c s', pretty_N_go x s = String c s' ∧ is_Some (digit_of c)).
  { intros Hcut. rewrite pretty_N_go_step by lia. apply Hcut.
    eexists _, _. split; [done|].
    rewrite digit_of_pretty; [done|]. by apply N.mod_lt. }
  intros x. induction (N.lt_wf_0 x) as [x _ IH]; intros s Hs.
  assert (x = 0 ∨ 0 < x)%N as [->|Hx] by lia.
  - by rewrite pretty_N_go_0.
  - rewrite pretty_N_go_step by done. apply IH; [by apply N.div_lt|].
    eexists _, _. split; [done|].
    rewrite digit_of_pretty; [done|]. by apply N.mod_lt.
Qed.

Lemma digit_not_sign c :
  is_Some (digit_of c) → Ascii.eqb c "-" = false ∧ Ascii.eqb c "+" = false.
Proof.
  destruct c as [[] [] [] [] [] [] [] []]; vm_compute; intros [? H];
    by (discriminate H || done).
Qed.

Lemma numeral_pretty (z : Z) : numeral (pretty z) = Some z.
Proof.
  unfold numeral. destruct z as [|p|p]; [reflexivity|..].
  - change (pretty (Z.pos p)) with (pretty (N.pos p)).
    destruct (pretty_pos_head p) as (c & s & Hp & Hd).
    pose proof (int_digits_pretty_pos p) as Hi. rewrite Hp in Hi |- *.
    destruct (digit_not_sign c Hd) as [-> ->]. done.
  - change (pretty (Z.neg p)) with (String "-"%char (pretty (N.pos p))).
    simpl. by rewrite int_digits_pretty_pos.
Qed.

Lemma count_digits_pretty_go k : ∀ x s,
  (x < 10 ^ N.of_nat k)%N →
  (count_digits (pretty_N_go x s) ≤ k + count_digits s)%nat.
Proof.
  induction k as [|k IH]; intros x s Hx.
  { assert (x = 0%N) as -> by (simpl in Hx; lia). by rewrite pretty_N_go_0. }
  assert (x = 0 ∨ 0 < x)%N as [->|Hpos] by lia.
  { rewrite pretty_N_go_0. lia. }
  rewrite pretty_N_go_step by done.
  rewrite Nat2N.inj_succ, N.pow_succ_r' in Hx.
  etrans; [apply IH; by apply N.Div0.div_lt_upper_bound|].
  simpl. rewrite digit_of_pretty by (by apply N.mod_lt). lia.
Qed.

(** [str] prints every number of at most 4300 digits. *)
Lemma str_small z : Z.abs z < 10 ^ int_max_str_digits → is_Some (str z).
Proof.
  intros Hz. unfold str.
  assert (count_digits (pretty z) ≤ 4300)%nat as Hc.
  { destruct z as [|p|p]; [vm_compute; lia|..];
      change (pretty (Z.pos p)) with (pretty (N.pos p));
      change (pretty (Z.neg p)) with (String "-"%char (pretty (N.pos p)));
      unfold pretty, pretty_N; (case_decide; [done|]); cbn [count_digits];
      change (digit_of "-") with (@None Z); cbn iota;
      (etrans; [apply (count_digits_pretty_go 4300)|simpl; lia]);
      change (N.of_nat 4300) with 4300%N;
      apply N2Z.inj_lt; rewrite N2Z.inj_pow; exact Hz. }
  replace (int_max_str_digits <? Z.of_nat (count_digits (pretty z)))
    with false; [done|].
  symmetry. apply Z.ltb_ge. unfold int_max_str_digits. lia.
Qed.

(** What [str] prints, when it prints, [int] reads back. *)
Lemma int_str z s : str z = Some s → strip s = s ∧ int (strip s) = Some z.
Proof.
  unfold str. destruct (_ <? _) eqn:Hlim; [done|]. intros [= <-].
  rewrite int_stripped, strip_pretty, Hlim. split; [done|].
  apply numeral_pretty.
Qed.

End strings.

(** ** QuizRunner.ask_question *)

Section ask_question.

Import Py.

(** One call: a line is read, graded and recorded. *)
Lemma ask_question_line self q w line rest :
  stdin w = line :: rest →
  QuizRunner.ask_question self q w =
    (Ok (QuizQuestion.mk q (QuizRunner.grade q line).1
           (QuizRunner.grade q line).2,
         QuizRunner.record self (Question.id q) (QuizRunner.grade q line).2),
     {| fs := fs w; stdin := rest; random := random w |}).
Proof.
  intros Hin. unfold QuizRunner.ask_question, mbind, M_bind, bind, input.
  rewrite Hin. by destruct (QuizRunner.grade q line).
Qed.

Lemma ask_question_eof self q w :
  stdin w = [] → QuizRunner.ask_question self q w = (Raise EOFError, w).
Proof.
  intros Hin. unfold QuizRunner.ask_question, mbind, M_bind, bind, input.
  by rewrite Hin.
Qed.

(** C1, as worded, fails: with canonical answer "Paris " (a trailing space)
    the response "paris" equals it once both are lower-cased and trimmed, yet
    the code, which does not trim the canonical answer, grades it
    incorrect. *)
Lemma free_text_canonical_not_trimmed :
  Spec.free_text_correct Sample.france_spaced "paris" = true ∧
  QuizRunner.ask_question ∅ Sample.france_spaced (Sample.terminal ["paris"])
  = (Ok (QuizQuestion.mk Sample.france_spaced (AnsStr "paris") false,
         {[ 7 := {| asked := 1; correct_count := 0 |} ]}),
     Sample.terminal []).
Proof. split; reflexivity. Qed.

(** C1, amended: for every free-text question (any type but "mcq"), the
    response is trimmed and lower-cased, the canonical answer (the empty
    string when absent) is lower-cased only, and [is_correct] holds exactly
    when the two results are equal.  A correct answer is in particular equal
    to the canonical one after both are lower-cased and trimmed, and the two
    notions agree when the canonical answer has no surrounding whitespace. *)
Theorem free_text_grading self q w line rest :
  Question.type q ≠ "mcq" →
  stdin w = line :: rest →
  ∃ qq self' w',
    QuizRunner.ask_question self q w = (Ok (qq, self'), w') ∧
    let canonical := default "" (Question.answer q) in
    (QuizQuestion.is_correct qq = true ↔
       lower (strip line) = lower canonical) ∧
    (QuizQuestion.is_correct qq = true →
       Spec.normalized line = Spec.normalized canonical) ∧
    (strip canonical = canonical →
       QuizQuestion.is_correct qq = Spec.free_text_correct q line).
Proof.
  intros Hty Hin. eexists _, _, _. split; [by apply ask_question_line|].
  simpl. unfold QuizRunner.grade.
  apply String.eqb_neq in Hty. rewrite Hty. simpl.
  split; [apply String.eqb_eq|]. split.
  - intros Heq%String.eqb_eq. unfold Spec.normalized.
    rewrite (lower_strip (default "" _)), <- Heq, <- lower_strip.
    by rewrite strip_idem.
  - intros Hc. unfold Spec.free_text_correct, Spec.normalized. by rewrite Hc.
Qed.

Lemma free_text_grading_witness :
  ∃ qq self' w',
    QuizRunner.ask_question ∅ Sample.france (Sample.terminal [" PARIS "])
    = (Ok (qq, self'), w') ∧
    let canonical := default "" (Question.answer Sample.france) in
    (QuizQuestion.is_correct qq = true ↔
       lower (strip " PARIS ") = lower canonical) ∧
    (QuizQuestion.is_correct qq = true →
       Spec.normalized " PARIS " = Spec.normalized canonical) ∧
    (strip canonical = canonical →
       QuizQuestion.is_correct qq
       = Spec.free_text_correct Sample.france " PARIS ").
Proof.
  apply (free_text_grading ∅ Sample.france (Sample.terminal [" PARIS "])
           " PARIS " []); [discriminate | reflexivity].
Defined.

(** The examples of the specification: "Paris", " paris " and "PARIS" are
    all graded correct against the canonical answer "Paris". *)
Example free_text_paris :
  Forall (λ line, (QuizRunner.grade Sample.france line).2 = true)
    ["Paris"; " paris "; "PARIS"].
Proof. repeat constructor. Qed.

(** C6: for every multiple-choice question with correct (zero-based) index
    [c], a response that [int] reads as [n] is graded correct exactly when
    [n = c + 1]; so the numeral that [str] prints for [c + 1], which exists
    for every index of at most 4300 digits, is graded correct, every other
    number, in range or not, is graded incorrect, and a response that [int]
    refuses, because it is no number or has more digits than the
    interpreter's limit, is graded incorrect, the call returning normally. *)
Theorem mcq_grading self q c w line rest :
  Question.type q = "mcq" →
  Question.correct q = Some c →
  stdin w = line :: rest →
  ∃ qq self' w',
    QuizRunner.ask_question self q w = (Ok (qq, self'), w') ∧
    (str (c + 1) = Some line → QuizQuestion.is_correct qq = true) ∧
    (Z.abs (c + 1) < 10 ^ int_max_str_digits → is_Some (str (c + 1))) ∧
    (∀ n, int (strip line) = Some n →
          QuizQuestion.is_correct qq = bool_decide (n = c + 1)) ∧
    (int (strip line) = None → QuizQuestion.is_correct qq = false).
Proof.
  intros Hty Hc Hin. eexists _, _, _. split; [by apply ask_question_line|].
  simpl. unfold QuizRunner.grade. rewrite Hty, Hc. simpl.
  split; [|split; [apply str_small|split]].
  - intros [_ ->]%int_str. simpl. apply Z.eqb_eq. lia.
  - intros n ->. simpl.
    destruct (Z.eqb_spec (n - 1) c); case_bool_decide; (done || lia).
  - by intros ->.
Qed.

Lemma mcq_grading_witness :
  ∃ qq self' w',
    QuizRunner.ask_question ∅ Sample.sum (Sample.terminal ["2"])
    = (Ok (qq, self'), w') ∧
    (str (1 + 1) = Some "2" → QuizQuestion.is_correct qq = true) ∧
    (Z.abs (1 + 1) < 10 ^ int_max_str_digits → is_Some (str (1 + 1))) ∧
    (∀ n, int (strip "2") = Some n →
          QuizQuestion.is_correct qq = bool_decide (n = 1 + 1)) ∧
    (int (strip "2") = None → QuizQuestion.is_correct qq = false).
Proof.
  apply (mcq_grading ∅ Sample.sum 1 (Sample.terminal ["2"]) "2" []);
    reflexivity.
Defined.

Example mcq_examples :
  (QuizRunner.grade Sample.sum "2").2 = true ∧
  (QuizRunner.grade Sample.sum " 2 ").2 = true ∧
  (QuizRunner.grade Sample.sum "1").2 = false ∧
  (QuizRunner.grade Sample.sum "9").2 = false ∧
  (QuizRunner.grade Sample.sum "0").2 = false ∧
  (QuizRunner.grade Sample.sum "two").2 = false ∧
  (QuizRunner.grade Sample.sum "").2 = false.
Proof. repeat split. Qed.

(** The limit on digits: with 4299 zeros in front, "2" is still read as the
    number 2; with 4300 zeros [int] refuses the line, which is then graded
    incorrect and recorded as typed. *)
Example mcq_digit_limit :
  QuizRunner.grade Sample.sum (Sample.zeros 4299 "2") = (AnsInt 1, true) ∧
  QuizRunner.grade Sample.sum (Sample.zeros 4300 "2")
  = (AnsStr (Sample.zeros 4300 "2"), false) ∧
  int (String "028" "2") = None ∧ int (String "133" "2") = Some 2.
Proof.
  split; [vm_compute; reflexivity|].
  split; [vm_compute; reflexivity|].
  split; vm_compute; reflexivity.
Qed.

(** C9, as worded, fails: the numeral "2" typed for a multiple-choice
    question is recorded as the index 1, a response that is no number is
    recorded without its surrounding whitespace, and a free-text response is
    recorded trimmed and lower-cased. *)
Lemma recorded_answer_not_raw :
  (QuizRunner.grade Sample.sum "2").1 = AnsInt 1 ∧
  (QuizRunner.grade Sample.sum "2").1 ≠ Spec.recorded "2" ∧
  (QuizRunner.grade Sample.sum " b ").1 = AnsStr "b" ∧
  (QuizRunner.grade Sample.sum " b ").1 ≠ Spec.recorded " b " ∧
  (QuizRunner.grade Sample.france "Paris").1 = AnsStr "paris" ∧
  (QuizRunner.grade Sample.france "Paris").1 ≠ Spec.recorded "Paris" ∧
  fst (QuizRunner.ask_question ∅ Sample.sum (Sample.terminal ["2"]))
  = Ok (QuizQuestion.mk Sample.sum (AnsInt 1) true,
        {[ 1 := {| asked := 1; correct_count := 1 |} ]}).
Proof. repeat split; (reflexivity || discriminate). Qed.

(** C9, amended: for every asked question the record made by the session
    pairs the question with the response as normalized for grading and with
    the correctness boolean that is also counted in the metrics: for a
    multiple-choice question the zero-based index [n - 1] when [int] reads
    the trimmed response as the number [n], and, when [int] refuses it (no
    number, or more digits than the interpreter's limit), the response with
    surrounding whitespace trimmed; for a free-text question the response
    trimmed and lower-cased. *)
Theorem recorded_answer self q w line rest :
  stdin w = line :: rest →
  ∃ qq self' w',
    QuizRunner.ask_question self q w = (Ok (qq, self'), w') ∧
    QuizQuestion.question qq = q ∧
    self' = QuizRunner.record self (Question.id q)
              (QuizQuestion.is_correct qq) ∧
    (Question.type q = "mcq" → ∀ n, int (strip line) = Some n →
       QuizQuestion.user_answer qq = AnsInt (n - 1)) ∧
    (Question.type q = "mcq" → int (strip line) = None →
       QuizQuestion.user_answer qq = AnsStr (strip line)) ∧
    (Question.type q ≠ "mcq" →
       QuizQuestion.user_answer qq = AnsStr (lower (strip line))).
Proof.
  intros Hin. eexists _, _, _. split; [by apply ask_question_line|].
  simpl. unfold QuizRunner.grade. repeat split.
  - intros -> n Hn. simpl. by rewrite Hn.
  - intros -> Hn. simpl. by rewrite Hn.
  - intros Hty%String.eqb_neq. by rewrite Hty.
Qed.

Lemma recorded_answer_witness :
  ∃ qq self' w',
    QuizRunner.ask_question ∅ Sample.sum (Sample.terminal [" b "])
    = (Ok (qq, self'), w') ∧
    QuizQuestion.question qq = Sample.sum ∧
    self' = QuizRunner.record ∅ (Question.id Sample.sum)
              (QuizQuestion.is_correct qq) ∧
    (Question.type Sample.sum = "mcq" → ∀ n, int (strip " b ") = Some n →
       QuizQuestion.user_answer qq = AnsInt (n - 1)) ∧
    (Question.type Sample.sum = "mcq" → int (strip " b ") = None →
       QuizQuestion.user_answer qq = AnsStr (strip " b ")) ∧
    (Question.type Sample.sum ≠ "mcq" →
       QuizQuestion.user_answer qq = AnsStr (lower (strip " b "))).
Proof.
  apply (recorded_answer ∅ Sample.sum (Sample.terminal [" b "]) " b " []).
  reflexivity.
Defined.

(** *** Metrics *)

Lemma record_lookup self qid ok :
  QuizRunner.record self qid ok !! qid =
    Some {| asked := asked (default {| asked := 0; correct_count := 0 |}
                              (self !! qid)) + 1;
            correct_count :=
              correct_count (default {| asked := 0; correct_count := 0 |}
                               (self !! qid)) + (if ok then 1 else 0) |}.
Proof.
  unfold QuizRunner.record. rewrite lookup_insert_eq.
  destruct ok; do 2 f_equal; lia.
Qed.

Lemma record_lookup_ne self qid ok k :
  k ≠ qid → QuizRunner.record self qid ok !! k = self !! k.
Proof. intros Hk. unfold QuizRunner.record. by rewrite lookup_insert_ne. Qed.

Lemma record_ok self qid ok : metrics_ok self → metrics_ok (QuizRunner.record self qid ok).
Proof.
  intros Hok k st. destruct (decide (k = qid)) as [->|Hk].
  - rewrite record_lookup. intros [= <-]. simpl.
    destruct (self !! qid) as [old|] eqn:Hold; simpl.
    + specialize (Hok _ _ Hold). destruct ok; lia.
    + destruct ok; lia.
  - rewrite record_lookup_ne by done. apply Hok.
Qed.

(** C10: a call of [ask_question] that gets its line adds one to [asked]
    of the question's id, both counters counting from zero when the id is
    new, adds one to [correct] exactly when the answer is correct, lowers no
    counter, leaves every other id as it was, and keeps
    [0 <= correct <= asked] for every id. *)
Theorem ask_question_metrics self q w line rest :
  stdin w = line :: rest →
  ∃ qq self' w',
    QuizRunner.ask_question self q w = (Ok (qq, self'), w') ∧
    let old := default {| asked := 0; correct_count := 0 |}
                 (self !! Question.id q) in
    self' !! Question.id q =
      Some {| asked := asked old + 1;
              correct_count := correct_count old
                + (if QuizQuestion.is_correct qq then 1 else 0) |} ∧
    (∀ k, k ≠ Question.id q → self' !! k = self !! k) ∧
    (∀ k st, self !! k = Some st →
       ∃ st', self' !! k = Some st' ∧ asked st ≤ asked st'
              ∧ correct_count st ≤ correct_count st') ∧
    (metrics_ok self → metrics_ok self').
Proof.
  intros Hin. eexists _, _, _. split; [by apply ask_question_line|].
  simpl. split; [apply record_lookup|].
  split; [intros k Hk; by apply record_lookup_ne|].
  split; [|apply record_ok].
  intros k st Hst. destruct (decide (k = Question.id q)) as [->|Hk].
  - rewrite record_lookup, Hst. eexists. split; [done|]. simpl.
    destruct (QuizRunner.grade q line).2; lia.
  - rewrite record_lookup_ne by done. eauto with lia.
Qed.

Lemma ask_question_metrics_witness :
  ∃ qq self' w',
    QuizRunner.ask_question ∅ Sample.france (Sample.terminal ["Paris"])
    = (Ok (qq, self'), w') ∧
    let old := default {| asked := 0; correct_count := 0 |}
                 ((∅ : gmap Z Stats) !! Question.id Sample.france) in
    self' !! Question.id Sample.france =
      Some {| asked := asked old + 1;
              correct_count := correct_count old
                + (if QuizQuestion.is_correct qq then 1 else 0) |} ∧
    (∀ k, k ≠ Question.id Sample.france →
       self' !! k = (∅ : gmap Z Stats) !! k) ∧
    (∀ k st, (∅ : gmap Z Stats) !! k = Some st →
       ∃ st', self' !! k = Some st' ∧ asked st ≤ asked st'
              ∧ correct_count st ≤ correct_count st') ∧
    (metrics_ok ∅ → metrics_ok self').
Proof.
  apply (ask_question_metrics ∅ Sample.france (Sample.terminal ["Paris"])
           "Paris" []).
  reflexivity.
Defined.

End ask_question.

(** ** QuizRunner.run *)

Section run.

(** The comprehension asks every question, in order, one line each. *)
Lemma ask_all_lines questions : ∀ self w,
  (length questions ≤ length (stdin w))%nat →
  ∃ qqs self' w',
    QuizRunner.ask_all self questions w = (Ok (qqs, self'), w') ∧
    QuizQuestion.question <$> qqs = questions ∧
    Forall2 (λ qq line,
               QuizQuestion.is_correct qq
               = (QuizRunner.grade (QuizQuestion.question qq) line).2)
            qqs (take (length questions) (stdin w)) ∧
    stdin w' = drop (length questions) (stdin w) ∧
    fs w' = fs w ∧ random w' = random w.
Proof.
  induction questions as [|q questions IH]; intros self w Hlen.
  - eexists _, _, _. split; [reflexivity|]. simpl. by rewrite drop_0.
  - destruct (stdin w) as [|line rest] eqn:Hin; simpl in Hlen; [lia|].
    set (w1 := {| fs := fs w; stdin := rest; random := random w |}).
    destruct (IH (QuizRunner.record self (Question.id q)
                    (QuizRunner.grade q line).2) w1)
      as (qqs & self' & w' & Hrun & Hq & Hg & Hrest & Hfs & Hrnd);
      [simpl; lia|].
    eexists _, _, _. split.
    { simpl. unfold mbind, M_bind, bind.
      rewrite (ask_question_line self q w line rest Hin).
      fold w1. rewrite Hrun. reflexivity. }
    split; [by rewrite fmap_cons, Hq|].
    split; [constructor; [done|exact Hg]|]. done.
Qed.

Lemma length_fmap_question (qqs : list QuizQuestion.t) questions :
  QuizQuestion.question <$> qqs = questions → length qqs = length questions.
Proof. intros <-. by rewrite length_fmap. Qed.

Lemma correct_answers_filter qqs :
  QuizRunner.correct_answers qqs
  = length (filter (λ qq, QuizQuestion.is_correct qq = true) qqs).
Proof.
  unfold QuizRunner.correct_answers.
  induction qqs as [|qq qqs IH]; [done|].
  rewrite filter_cons. cbn [List.filter].
  destruct (QuizQuestion.is_correct qq).
  - rewrite decide_True by done. cbn [length]. by rewrite IH.
  - rewrite decide_False by done. done.
Qed.

(** C7, as worded, fails in the last place: for one correct answer out of
    three the session returns 33.33333333333333 (the quotient 1/3 is rounded
    before it is multiplied by 100), where [100 * 1 / 3] is
    33.333333333333336. *)
Lemma score_rounds_the_quotient :
  ∃ res self' w',
    QuizRunner.run ∅ [Sample.france; Sample.france; Sample.france]
      (Sample.terminal ["Paris"; "Rome"; "Oslo"]) = (Ok (res, self'), w') ∧
    QuizQuestion.is_correct <$> QuizResult.quiz_questions res
    = [true; false; false] ∧
    QuizResult.score res = 0x1.0aaaaaaaaaaaap+5%float ∧
    Spec.score 1 3 = 0x1.0aaaaaaaaaaabp+5%float ∧
    PrimFloat.eqb (QuizResult.score res) (Spec.score 1 3) = false.
Proof. eexists _, _, _. split; [reflexivity|]. repeat split. Qed.

(** C7, amended: for every question sequence, given a line for every
    question, a session returns a result with one record per question whose
    score is, in binary64 floating point, the number of records graded
    correct divided by the number of questions, that quotient then
    multiplied by 100; it is 0.0 for the empty sequence, where no division
    takes place.  (Lists of 2^53 questions or more are left out: below that
    [float] is exact.) *)
Theorem run_score self questions w :
  Z.of_nat (length questions) < 9007199254740992 →
  (length questions ≤ length (stdin w))%nat →
  ∃ res self' w',
    QuizRunner.run self questions w = (Ok (res, self'), w') ∧
    length (QuizResult.quiz_questions res) = length questions ∧
    QuizResult.score res =
      match questions with
      | [] => 0
      | _ =>
          Py.float (length (filter (λ qq, QuizQuestion.is_correct qq = true)
                              (QuizResult.quiz_questions res)))
          / Py.float (length questions) * 100
      end%float.
Proof.
  intros _ Hlen.
  destruct (ask_all_lines questions self w Hlen)
    as (qqs & self' & w' & Hrun & Hq & _).
  eexists _, _, _. split.
  { unfold QuizRunner.run, mbind, M_bind, bind. rewrite Hrun. reflexivity. }
  pose proof (length_fmap_question _ _ Hq) as Hl. simpl.
  split; [done|].
  destruct questions as [|q questions]; destruct qqs as [|qq qqs];
    try discriminate Hl; [reflexivity|].
  unfold QuizRunner.score_of. by rewrite Hl, correct_answers_filter.
Qed.

Lemma run_score_witness :
  ∃ res self' w',
    QuizRunner.run ∅ [Sample.france; Sample.sum]
      (Sample.terminal ["paris"; "3"]) = (Ok (res, self'), w') ∧
    length (QuizResult.quiz_questions res)
    = length [Sample.france; Sample.sum] ∧
    QuizResult.score res =
      (Py.float (length (filter (λ qq, QuizQuestion.is_correct qq = true)
                           (QuizResult.quiz_questions res)))
       / Py.float (length [Sample.france; Sample.sum]) * 100)%float.
Proof.
  apply (run_score ∅ [Sample.france; Sample.sum]
           (Sample.terminal ["paris"; "3"])).
  - reflexivity.
  - simpl. lia.
Defined.

(** The examples of the specification: three correct answers out of four
    give 75.0, and the empty quiz gives 0.0. *)
Example score_three_of_four :
  ∃ res self' w',
    QuizRunner.run ∅ [Sample.france; Sample.sum; Sample.sum; Sample.france]
      (Sample.terminal ["paris"; "2"; "3"; "PARIS"]) = (Ok (res, self'), w') ∧
    QuizResult.score res = 75%float ∧
    self' = {[ 7 := {| asked := 2; correct_count := 2 |};
               1 := {| asked := 2; correct_count := 1 |} ]}.
Proof. eexists _, _, _. split; [reflexivity|]. split; reflexivity. Qed.

Example score_empty w :
  QuizRunner.run ∅ [] w
  = (Ok (QuizResult.mk [] 0%float [], ∅), w).
Proof. reflexivity. Qed.

End run.

(** ** QuestionBank.from_json and QuestionBank.to_json *)

Section bank_files.

Lemma as_strs_of_strs l : Question.as_strs (Question.of_strs l) = Some l.
Proof.
  unfold Question.as_strs, Question.of_strs.
  induction l as [|x l IH]; [done|]. rewrite fmap_cons. simpl.
  simpl in IH. by rewrite IH.
Qed.

Lemma as_opt_of_opt {A} (f : json → option A) (g : A → json) (v : option A) :
  (∀ a, f (g a) = Some a) → (∀ a, g a ≠ JNull) →
  Question.as_opt f (Some (Question.of_opt g v)) = Some v.
Proof.
  intros Hfg Hg. destruct v as [a|]; simpl; [|done].
  specialize (Hg a). specialize (Hfg a).
  destruct (g a); try done; simpl in *; by rewrite Hfg.
Qed.

(** The constructor reads back the dict of a question. *)
Lemma init_dict q : Question.init (Question.dict q) = Ok q.
Proof.
  destruct q as [i qu ty d tp tg e ch co an].
  unfold Question.init, Question.dict.
  cbn [Question.id Question.question Question.type Question.difficulty
       Question.topic Question.tags Question.explanation Question.choices
       Question.correct Question.answer].
  change (negb (forallb _ _)) with false at 1. cbn iota.
  change (negb (forallb _ _)) with false at 1. cbn iota.
  cbn [Question.get String.eqb Ascii.eqb Bool.eqb mbind option_bind
       Question.as_int Question.as_str].
  rewrite as_strs_of_strs. cbn [mbind option_bind].
  rewrite (as_opt_of_opt Question.as_strs Question.of_strs ch)
    by (done || apply as_strs_of_strs).
  rewrite (as_opt_of_opt Question.as_int JInt co) by done.
  rewrite (as_opt_of_opt Question.as_str JStr an) by done.
  reflexivity.
Qed.

Lemma init_all_dicts qs :
  QuestionBank.init_all (JObj ∘ Question.dict <$> qs) = Ok qs.
Proof.
  induction qs as [|q qs IH]; [done|].
  rewrite fmap_cons. simpl. simpl in IH. by rewrite init_dict, IH.
Qed.

Lemma loads_dumps bank : QuestionBank.loads (QuestionBank.dumps bank) = Ok bank.
Proof.
  destruct bank as [qs]. unfold QuestionBank.loads, QuestionBank.dumps.
  simpl. by rewrite init_all_dicts.
Qed.

(** C8: for every bank, whatever the types of its questions, writing it with
    [to_json] and reading the file back with [from_json] gives the same
    sequence of questions, every field of every question included. *)
Theorem to_json_from_json bank path w :
  ∃ w',
    QuestionBank.to_json bank path w = (Ok (), w') ∧
    QuestionBank.from_json path w' = (Ok bank, w').
Proof.
  eexists. split; [reflexivity|].
  unfold QuestionBank.from_json. simpl.
  by rewrite lookup_insert_eq, loads_dumps.
Qed.

Example round_trip_both_types :
  QuestionBank.loads (QuestionBank.dumps
    (QuestionBank.mk [Sample.sum; Sample.france]))
  = Ok (QuestionBank.mk [Sample.sum; Sample.france]).
Proof. reflexivity. Qed.

End bank_files.

(** ** Loading a bank with incomplete records *)

Section loading.

Lemma has_elem_of kw k : Question.has kw k = true ↔ k ∈ kw.*1.
Proof.
  unfold Question.has. induction kw as [|[k' v] kw IH]; simpl.
  - split; [done|]. by intros ?%elem_of_nil.
  - rewrite elem_of_cons. destruct (String.eqb_spec k k') as [->|Hne].
    + split; [by left|done].
    + rewrite IH. split; [by right|]. by intros [?|?].
Qed.

Lemma forallb_subseteq (f : string → bool) (P : string → Prop) l :
  (∀ k, f k = true ↔ P k) → forallb f l = true ↔ ∀ k, k ∈ l → P k.
Proof.
  intros Hf. rewrite forallb_forall. setoid_rewrite <- list_elem_of_In.
  by setoid_rewrite Hf.
Qed.

(** The constructor raises exactly when a keyword is no field or a field
    without default is missing, and then it is a [TypeError]. *)
Lemma init_raise kw :
  (∃ e, Question.init kw = Raise e) ↔
  ¬ (kw.*1 ⊆ Question.fields ∧ Question.required ⊆ kw.*1).
Proof.
  unfold Question.init.
  destruct (forallb (λ k, bool_decide (k ∈ Question.fields)) kw.*1) eqn:Hk;
    cbn [negb].
  - rewrite forallb_subseteq in Hk by (intros k; apply bool_decide_eq_true).
    destruct (forallb (Question.has kw) Question.required) eqn:Hr; cbn [negb].
    + rewrite forallb_subseteq in Hr by apply has_elem_of.
      split; [|by intros []].
      intros [e He]. exfalso. revert He. by case_match.
    + split; [|by eauto]. intros _ [_ Hsub].
      apply not_true_iff_false in Hr. apply Hr.
      by apply (forallb_subseteq _ (λ k, k ∈ kw.*1)); [apply has_elem_of|].
  - split; [|by eauto]. intros _ [Hsub _].
    apply not_true_iff_false in Hk. apply Hk.
    apply (forallb_subseteq _ (λ k, k ∈ Question.fields));
      [intros k; apply bool_decide_eq_true|done].
Qed.

Lemma init_raise_TypeError kw e : Question.init kw = Raise e → e = TypeError.
Proof.
  unfold Question.init. repeat case_match; congruence.
Qed.

(** When the bank cannot be loaded, the program stops there: no line of the
    terminal is read and nothing else changes. *)
Lemma main_load_error a w e :
  (QuestionBank.from_json (bank a) w).1 = Raise e → main a w = (Raise e, w).
Proof.
  unfold main, mbind, M_bind, bind.
  unfold QuestionBank.from_json. repeat case_match; simpl; congruence.
Qed.

(** C2, as worded, fails: the three records of [Sample.incomplete_bank] are
    each one the specification has the loader reject, yet the bank loads, and
    the program runs a quiz on it, reading the three answers. *)
Lemma incomplete_bank_loads :
  Forall (λ kw, Spec.malformed kw = true)
    [Sample.mcq_bare; Sample.short_bare; Sample.mcq_beyond] ∧
  (QuestionBank.from_json "questions.json"
     (Sample.on_disk Sample.incomplete_bank ["1"; ""; "2"])).1
  = Ok (QuestionBank.mk
          [Question.mk 1 "2 + 2 = ?" "mcq" "easy" "math" []
             "Two and two make four." None None None;
           Question.mk 2 "2 + 2 = ?" "short" "easy" "math" []
             "Two and two make four." None None None;
           Question.mk 3 "2 + 2 = ?" "mcq" "easy" "math" []
             "Two and two make four." (Some ["3"; "4"]) (Some 5) None]) ∧
  ∃ res,
    main Sample.no_args (Sample.on_disk Sample.incomplete_bank ["1"; ""; "2"])
    = (Ok res, Sample.on_disk Sample.incomplete_bank []) ∧
    length (QuizResult.quiz_questions res) = 3%nat.
Proof.
  split; [repeat constructor|]. split; [reflexivity|].
  eexists. split; [vm_compute; reflexivity|reflexivity].
Qed.

End loading.

(** ** The module [random] *)

Section random.

Context {A : Type}.
Implicit Types pool : list A.

Lemma randbelow_lt n g : (0 < n)%nat → ((Random.randbelow n g).1 < n)%nat.
Proof.
  intros Hn. destruct g as [|r g]; simpl; [done|].
  apply Nat.mod_upper_bound. lia.
Qed.

(** Drawing is without replacement: what is drawn is a sub-multiset of the
    pool. *)
Lemma draw_submseteq k : ∀ pool g, (Random.draw pool k g).1 ⊆+ pool.
Proof.
  induction k as [|k IH]; intros pool g; simpl; [apply submseteq_nil_l|].
  destruct (Random.randbelow (length pool) g) as [j g1].
  destruct (pool !! j) as [x|] eqn:Hj; simpl; [|apply submseteq_nil_l].
  specialize (IH (delete j pool) g1).
  destruct (Random.draw (delete j pool) k g1) as [xs g2]. simpl in *.
  rewrite (delete_Permutation pool j x Hj). by constructor.
Qed.

Lemma draw_length k : ∀ pool g,
  length (Random.draw pool k g).1 = (k `min` length pool)%nat.
Proof.
  induction k as [|k IH]; intros pool g; simpl; [done|].
  destruct pool as [|y pool'] eqn:Hpool.
  { by destruct (Random.randbelow _ g). }
  pose proof (randbelow_lt (length (y :: pool')) g ltac:(simpl; lia)) as Hlt.
  destruct (Random.randbelow (length (y :: pool')) g) as [j g1].
  simpl in Hlt.
  destruct (lookup_lt_is_Some_2 (y :: pool') j Hlt) as [x Hj]. rewrite Hj.
  specialize (IH (delete j (y :: pool')) g1).
  rewrite length_delete in IH by eauto.
  destruct (Random.draw (delete j (y :: pool')) k g1) as [xs g2].
  simpl in *. lia.
Qed.

Lemma sample_ok pool k w :
  0 ≤ k ≤ Z.of_nat (length pool) →
  ∃ xs w',
    Random.sample pool k w = (Ok xs, w') ∧
    length xs = Z.to_nat k ∧ xs ⊆+ pool ∧
    fs w' = fs w ∧ stdin w' = stdin w.
Proof.
  intros Hk. unfold Random.sample.
  replace (k <? 0) with false by (symmetry; apply Z.ltb_ge; lia).
  replace (Z.of_nat (length pool) <? k) with false
    by (symmetry; apply Z.ltb_ge; lia).
  simpl.
  pose proof (draw_submseteq (Z.to_nat k) pool (random w)) as Hsub.
  pose proof (draw_length (Z.to_nat k) pool (random w)) as Hlen.
  destruct (Random.draw pool (Z.to_nat k) (random w)) as [xs g].
  eexists _, _. split; [done|]. simpl in *. repeat split; [lia|done].
Qed.

Lemma sample_negative pool k w :
  k < 0 → Random.sample pool k w = (Raise ValueError, w).
Proof.
  intros Hk. unfold Random.sample.
  by replace (k <? 0) with true by (symmetry; apply Z.ltb_lt; lia).
Qed.

Lemma shuffle_ok pool w :
  ∃ xs w',
    Random.shuffle pool w = (Ok xs, w') ∧ xs ≡ₚ pool ∧
    fs w' = fs w ∧ stdin w' = stdin w.
Proof.
  unfold Random.shuffle.
  pose proof (draw_submseteq (length pool) pool (random w)) as Hsub.
  pose proof (draw_length (length pool) pool (random w)) as Hlen.
  destruct (Random.draw pool (length pool) (random w)) as [xs g].
  eexists _, _. split; [done|]. simpl in *. repeat split.
  apply submseteq_length_Permutation; [done|lia].
Qed.

End random.

(** ** QuizGenerator.generate_quiz *)

Section generate_quiz.

Implicit Types (bank : QuestionBank.t) (B : list Question.t).

Lemma filter_difficulty bank topic d :
  d ≠ "" →
  QuestionBank.filter bank topic (Some d)
  = filter (λ q, Some (Question.difficulty q) = Some d)
      (QuestionBank.filter bank topic None).
Proof.
  intros Hd%String.eqb_neq. unfold QuestionBank.filter. simpl.
  by rewrite Hd.
Qed.

Lemma filter_questions bank topic difficulty :
  QuestionBank.filter bank topic difficulty ⊆+ QuestionBank.questions bank.
Proof.
  unfold QuestionBank.filter.
  repeat case_match; repeat (etrans; [apply sublist_submseteq, sublist_filter|]);
    done.
Qed.

Lemma filter_other_difficulty B d d' :
  d' ≠ d →
  filter (λ q, Some (Question.difficulty q) = Some d')
    (filter (λ q, ¬ Some (Question.difficulty q) = Some d) B)
  = filter (λ q, Some (Question.difficulty q) = Some d') B.
Proof.
  intros Hne. rewrite list_filter_filter. apply list_filter_iff.
  intros q. split; [by intros [? _]|]. intros Hq. split; [done|].
  congruence.
Qed.

(** The pools of different difficulty labels do not overlap: together they
    use no question of the bank more often than the bank has it. *)
Lemma pools_submseteq B ds :
  NoDup ds →
  concat ((λ d, filter (λ q, Some (Question.difficulty q) = Some d) B) <$> ds)
  ⊆+ B.
Proof.
  intros Hnd. revert B. induction Hnd as [|d ds Hd _ IH]; intros B.
  { apply submseteq_nil_l. }
  rewrite fmap_cons. simpl.
  trans (filter (λ q, Some (Question.difficulty q) = Some d) B
         ++ filter (λ q, ¬ Some (Question.difficulty q) = Some d) B);
    [|apply Permutation_submseteq, filter_app_complement].
  apply submseteq_skips_l.
  etrans; [|apply (IH (filter (λ q, ¬ Some (Question.difficulty q) = Some d) B))].
  apply Permutation_submseteq. f_equiv.
  clear IH. induction ds as [|d' ds IH]; [done|].
  apply not_elem_of_cons in Hd as [Hne Hd].
  rewrite !fmap_cons, filter_other_difficulty by done. f_equiv. by apply IH.
Qed.

Lemma concat_submseteq (xss yss : list (list Question.t)) :
  Forall2 submseteq xss yss → concat xss ⊆+ concat yss.
Proof. induction 1; simpl; [done|]. by apply submseteq_app. Qed.

Lemma submseteq_NoDup B1 B2 : B1 ⊆+ B2 → NoDup B2 → NoDup B1.
Proof.
  intros [k Hk]%submseteq_Permutation Hnd. rewrite Hk in Hnd.
  by apply NoDup_app in Hnd as [? _].
Qed.

(** The loop over the pairs of the policy, when no count is negative. *)
Lemma by_difficulty_ok bank topic items : ∀ selection w,
  Forall (λ item, 0 ≤ item.2) items →
  ∃ draws w',
    QuizGenerator.by_difficulty bank topic items selection w
    = (Ok (selection ++ concat draws), w') ∧
    Forall2 (QuizGenerator.contribution bank topic) items draws ∧
    fs w' = fs w ∧ stdin w' = stdin w.
Proof.
  induction items as [|[d c] items IH]; intros selection w Hpos.
  { exists [], w. simpl. by rewrite app_nil_r. }
  apply Forall_cons in Hpos as [Hc Hpos]. simpl in Hc.
  destruct (QuestionBank.filter bank topic (Some d)) as [|x pool] eqn:Hpool.
  - destruct (IH selection w Hpos) as (draws & w' & Hrun & Hdraws & Hfs & Hin).
    exists ([] :: draws), w'. split; [|split; [|done]].
    + simpl. by rewrite Hpool.
    + constructor; [|done]. unfold QuizGenerator.contribution. simpl.
      rewrite Hpool. simpl. split; [lia|done].
  - destruct (sample_ok (x :: pool)
                (c `min` Z.of_nat (length (x :: pool))) w)
      as (xs & w1 & Hs & Hlen & Hsub & Hfs1 & Hin1); [lia|].
    destruct (IH (selection ++ xs) w1 Hpos)
      as (draws & w' & Hrun & Hdraws & Hfs & Hin).
    exists (xs :: draws), w'. split; [|split; [|split; congruence]].
    + simpl. rewrite Hpool. unfold mbind, M_bind, bind.
      rewrite Hs, Hrun. by rewrite <- app_assoc.
    + constructor; [|done]. unfold QuizGenerator.contribution. simpl.
      rewrite Hpool. split; [done|]. split; [done|].
      intros Hall. apply submseteq_length_Permutation; [done|]. lia.
Qed.

(** With a negative count for a pool that is not empty, [random.sample]
    raises. *)
Lemma by_difficulty_negative bank topic d c items selection w :
  c < 0 → QuestionBank.filter bank topic (Some d) ≠ [] →
  QuizGenerator.by_difficulty bank topic ((d, c) :: items) selection w
  = (Raise ValueError, w).
Proof.
  intros Hc Hpool. simpl.
  destruct (QuestionBank.filter bank topic (Some d)) as [|x pool]; [done|].
  unfold mbind, M_bind, bind. rewrite sample_negative; [done|lia].
Qed.

Lemma draws_submseteq bank topic items draws :
  Forall2 (QuizGenerator.contribution bank topic) items draws →
  NoDup items.*1 → "" ∉ items.*1 →
  concat draws ⊆+ QuestionBank.filter bank topic None.
Proof.
  intros Hdraws Hnd Hne.
  etrans; [|by apply (pools_submseteq _ items.*1)].
  apply concat_submseteq. clear Hnd.
  induction Hdraws as [|[d c] dr items draws Hdr _ IH]; [constructor|].
  rewrite fmap_cons in Hne. apply not_elem_of_cons in Hne as [Hd Hne].
  rewrite !fmap_cons. constructor; [|by apply IH].
  destruct Hdr as (_ & Hsub & _). simpl in *.
  by rewrite filter_difficulty in Hsub.
Qed.

(** C4, as worded, fails.  With the policy {"easy": 1, "": 1} the second
    pair, whose label is the empty string, draws from the whole bank, and the
    one question of the bank is returned twice.  With the policy
    {"easy": -1} the call raises [ValueError]. *)
Lemma per_difficulty_duplicate_and_error :
  QuizGenerator.generate_quiz Sample.sum_bank
    (QuizConfig.mk [("easy", 1); ("", 1)] None) None (Sample.terminal [])
  = (Ok ([Sample.sum; Sample.sum], Sample.sum_bank), Sample.terminal []) ∧
  ¬ NoDup [Sample.sum; Sample.sum] ∧
  QuizGenerator.generate_quiz Sample.sum_bank
    (QuizConfig.mk [("easy", -1)] None) None (Sample.terminal [])
  = (Raise ValueError, Sample.terminal []).
Proof.
  split; [reflexivity|]. split; [|reflexivity].
  intros Hnd. apply NoDup_cons in Hnd as [Hin _]. apply Hin. by left.
Qed.

(** C4, amended: for every per-difficulty policy without a negative count
    the call returns; each pair [(difficulty, count)] contributes
    [min count (size of the pool)] questions drawn without replacement from
    the bank filtered by the topic of the policy and that difficulty, nothing
    for an empty pool, and the whole pool when [count] is at least its size;
    the result is a shuffle of the contributions.  When moreover no label is
    the empty string, the result uses no question more often than the bank
    has it, so it is free of duplicates when the bank is. *)
Theorem per_difficulty_selection bank config num w :
  QuizConfig.counts_by_difficulty config ≠ [] →
  Forall (λ item, 0 ≤ item.2) (QuizConfig.counts_by_difficulty config) →
  NoDup (QuizConfig.counts_by_difficulty config).*1 →
  ∃ draws selection w',
    QuizGenerator.generate_quiz bank config num w
    = (Ok (selection, bank), w') ∧
    Forall2 (QuizGenerator.contribution bank (QuizConfig.topic config))
      (QuizConfig.counts_by_difficulty config) draws ∧
    selection ≡ₚ concat draws ∧
    ("" ∉ (QuizConfig.counts_by_difficulty config).*1 →
       selection ⊆+ QuestionBank.questions bank ∧
       (NoDup (QuestionBank.questions bank) → NoDup selection)).
Proof.
  intros Hne Hpos Hnd. unfold QuizGenerator.generate_quiz.
  destruct (QuizConfig.counts_by_difficulty config) as [|item items] eqn:Hc;
    [done|]. rewrite <- Hc in *. clear Hc Hne.
  destruct (by_difficulty_ok bank (QuizConfig.topic config)
              (QuizConfig.counts_by_difficulty config) [] w Hpos)
    as (draws & w1 & Hrun & Hdraws & _).
  destruct (shuffle_ok (concat draws) w1) as (selection & w' & Hsh & Hperm & _).
  exists draws, selection, w'. split.
  { unfold mbind, M_bind, bind. rewrite Hrun. simpl. by rewrite Hsh. }
  split; [done|]. split; [done|]. intros Hlabel.
  assert (selection ⊆+ QuestionBank.questions bank) as Hsub.
  { rewrite Hperm. etrans; [by eapply draws_submseteq|].
    apply filter_questions. }
  split; [done|]. by apply submseteq_NoDup.
Qed.

Lemma per_difficulty_selection_witness :
  ∃ draws selection w',
    QuizGenerator.generate_quiz
      (QuestionBank.mk [Sample.sum; Sample.france])
      (QuizConfig.mk [("easy", 5); ("hard", 2)] None) None (Sample.terminal [])
    = (Ok (selection, QuestionBank.mk [Sample.sum; Sample.france]), w') ∧
    Forall2 (QuizGenerator.contribution
               (QuestionBank.mk [Sample.sum; Sample.france]) None)
      [("easy", 5); ("hard", 2)] draws ∧
    selection ≡ₚ concat draws ∧
    ("" ∉ [("easy", 5); ("hard", 2)].*1 →
       selection ⊆+ [Sample.sum; Sample.france] ∧
       (NoDup [Sample.sum; Sample.france] → NoDup selection)).
Proof.
  apply (per_difficulty_selection
           (QuestionBank.mk [Sample.sum; Sample.france])
           (QuizConfig.mk [("easy", 5); ("hard", 2)] None) None
           (Sample.terminal [])).
  - discriminate.
  - simpl. repeat constructor; simpl; lia.
  - simpl. apply (bool_decide_unpack _). vm_compute. exact I.
Defined.

(** C5, as worded, fails: a count of 0 is taken as no count, and the whole
    pool is returned. *)
Lemma zero_count_returns_pool :
  QuizGenerator.generate_quiz Sample.sum_bank (QuizConfig.mk [] None)
    (Some 0) (Sample.terminal [])
  = (Ok ([Sample.sum], Sample.sum_bank), Sample.terminal []) ∧
  Z.to_nat (0 `min` Z.of_nat
              (length (QuestionBank.filter Sample.sum_bank None None)))
  ≠ length [Sample.sum].
Proof. split; [reflexivity|discriminate]. Qed.

(** C5, amended: for every policy without per-difficulty counts the bank is
    filtered by topic only; with a positive count [n] the call returns
    [min n (size of the pool)] questions drawn without replacement from that
    pool; with no count, or with the count 0, it returns the whole pool in a
    shuffled order.  The bank keeps its questions. *)
Theorem flat_selection bank config num w :
  QuizConfig.counts_by_difficulty config = [] →
  (∀ n, num = Some n → 0 ≤ n) →
  let pool := QuestionBank.filter bank (QuizConfig.topic config) None in
  ∃ selection bank' w',
    QuizGenerator.generate_quiz bank config num w
    = (Ok (selection, bank'), w') ∧
    selection ⊆+ pool ∧
    QuestionBank.questions bank' ≡ₚ QuestionBank.questions bank ∧
    (∀ n, num = Some n → 0 < n →
       length selection = Z.to_nat (n `min` Z.of_nat (length pool))) ∧
    (num = None ∨ num = Some 0 → selection ≡ₚ pool).
Proof.
  intros Hc Hnum pool. unfold QuizGenerator.generate_quiz. rewrite Hc.
  fold pool. destruct (Py.truthy_int num) eqn:Ht.
  - destruct num as [n|]; [|done]. simpl in Ht.
    apply negb_true_iff, Z.eqb_neq in Ht. specialize (Hnum n eq_refl).
    destruct (sample_ok pool (n `min` Z.of_nat (length pool)) w)
      as (xs & w1 & Hs & Hlen & Hsub & _); [lia|].
    destruct (shuffle_ok xs w1) as (selection & w' & Hsh & Hperm & _).
    exists selection, bank, w'. split.
    { unfold mbind, M_bind, bind. simpl. rewrite Hs. simpl. by rewrite Hsh. }
    split; [by rewrite Hperm|]. split; [done|]. split.
    + intros ? [= <-] _. by rewrite Hperm.
    + intros [?|[= ->]]; done.
  - destruct (shuffle_ok pool w) as (selection & w' & Hsh & Hperm & _).
    eexists selection, _, w'. split.
    { unfold mbind, M_bind, bind. rewrite Hsh. reflexivity. }
    split; [by rewrite Hperm|]. split; [|split].
    + case_match; [done|]. simpl. rewrite Hperm. unfold pool.
      unfold QuestionBank.filter. simpl. by case_match.
    + intros n -> Hn. simpl in Ht.
      apply negb_false_iff, Z.eqb_eq in Ht. lia.
    + done.
Qed.

Lemma flat_selection_witness :
  let bank := QuestionBank.mk [Sample.sum; Sample.france] in
  let pool := QuestionBank.filter bank (Some "geo") None in
  ∃ selection bank' w',
    QuizGenerator.generate_quiz bank (QuizConfig.mk [] (Some "geo")) (Some 3)
      (Sample.terminal [])
    = (Ok (selection, bank'), w') ∧
    selection ⊆+ pool ∧
    QuestionBank.questions bank' ≡ₚ QuestionBank.questions bank ∧
    (∀ n, Some 3 = Some n → 0 < n →
       length selection = Z.to_nat (n `min` Z.of_nat (length pool))) ∧
    (Some 3 = None ∨ Some 3 = Some 0 → selection ≡ₚ pool).
Proof.
  apply (flat_selection (QuestionBank.mk [Sample.sum; Sample.france])
           (QuizConfig.mk [] (Some "geo")) (Some 3) (Sample.terminal [])).
  - reflexivity.
  - intros n [= <-]. lia.
Defined.

(** The scenario of the specification: two easy and one hard question, the
    policy {"easy": 2}: exactly the two easy questions are selected. *)
Example two_easy_of_three g :
  let e1 := Sample.sum in
  let e2 := Question.mk 2 "3 + 3 = ?" "mcq" "easy" "math" [] "six"
              (Some ["6"; "7"]) (Some 0) None in
  let h := Question.mk 3 "7 * 8 = ?" "mcq" "hard" "math" [] "fifty-six"
             (Some ["54"; "56"]) (Some 1) None in
  ∃ selection w',
    QuizGenerator.generate_quiz (QuestionBank.mk [e1; h; e2])
      (QuizConfig.mk [("easy", 2)] None) None
      {| fs := ∅; stdin := []; random := g |}
    = (Ok (selection, QuestionBank.mk [e1; h; e2]), w') ∧
    selection ≡ₚ [e1; e2].
Proof.
  intros e1 e2 h.
  set (bank := QuestionBank.mk [e1; h; e2]).
  set (w := {| fs := ∅; stdin := []; random := g |}).
  destruct (by_difficulty_ok bank None [("easy", 2)] [] w)
    as (draws & w1 & Hrun & Hdraws & _).
  { repeat constructor. simpl. lia. }
  destruct (shuffle_ok (concat draws) w1) as (sel & w' & Hsh & Hperm & _).
  exists sel, w'. split.
  { unfold QuizGenerator.generate_quiz.
    cbn [QuizConfig.counts_by_difficulty QuizConfig.topic].
    unfold mbind, M_bind, bind. rewrite Hrun. simpl. by rewrite Hsh. }
  rewrite Hperm.
  inversion Hdraws as [|? dr ? ds Hdr Hnil]; subst.
  inversion Hnil; subst. simpl. rewrite app_nil_r.
  destruct Hdr as (_ & _ & Hall). apply Hall. vm_compute. discriminate.
Qed.

End generate_quiz.

(** ** Metrics across runs of the program *)

Section persistence.

Lemma keeps_fs_ret {A} (a : A) : keeps_fs (mret a).
Proof. done. Qed.

Lemma keeps_fs_bind {A B} (m : M A) (k : A → M B) :
  keeps_fs m → (∀ a, keeps_fs (k a)) → keeps_fs (m ≫= k).
Proof.
  intros Hm Hk w. unfold mbind, M_bind, bind. specialize (Hm w).
  destruct (m w) as [[a|e|] w1]; simpl in *; [|done..].
  by rewrite Hk.
Qed.

Lemma keeps_fs_input : keeps_fs input.
Proof. intros w. unfold input. by destruct (stdin w). Qed.

Lemma keeps_fs_sample {A} (pool : list A) k : keeps_fs (Random.sample pool k).
Proof.
  intros w. unfold Random.sample. case_match; [done|].
  by destruct (Random.draw _ _ _).
Qed.

Lemma keeps_fs_shuffle {A} (x : list A) : keeps_fs (Random.shuffle x).
Proof. intros w. unfold Random.shuffle. by destruct (Random.draw _ _ _). Qed.

Lemma keeps_fs_from_json path : keeps_fs (QuestionBank.from_json path).
Proof. intros w. unfold QuestionBank.from_json. by repeat case_match. Qed.

Lemma keeps_fs_by_difficulty bank topic items :
  ∀ selection, keeps_fs (QuizGenerator.by_difficulty bank topic items selection).
Proof.
  induction items as [|[d c] items IH]; intros selection; simpl; [done|].
  case_match; [done|].
  apply keeps_fs_bind; [apply keeps_fs_sample|done].
Qed.

Lemma keeps_fs_generate_quiz bank config num :
  keeps_fs (QuizGenerator.generate_quiz bank config num).
Proof.
  unfold QuizGenerator.generate_quiz.
  repeat case_match;
    repeat (apply keeps_fs_bind; [|intros ?]);
    auto using keeps_fs_by_difficulty, keeps_fs_sample, keeps_fs_shuffle,
      @keeps_fs_ret.
Qed.

Lemma keeps_fs_ask_question self q : keeps_fs (QuizRunner.ask_question self q).
Proof.
  unfold QuizRunner.ask_question.
  apply keeps_fs_bind; [apply keeps_fs_input|]. intros line.
  by destruct (QuizRunner.grade q line).
Qed.

Lemma keeps_fs_ask_all questions :
  ∀ self, keeps_fs (QuizRunner.ask_all self questions).
Proof.
  induction questions as [|q questions IH]; intros self; simpl; [done|].
  apply keeps_fs_bind; [apply keeps_fs_ask_question|]. intros [qq self1].
  apply keeps_fs_bind; [apply IH|]. by intros [qqs self2].
Qed.

Lemma keeps_fs_run self questions : keeps_fs (QuizRunner.run self questions).
Proof.
  unfold QuizRunner.run.
  apply keeps_fs_bind; [apply keeps_fs_ask_all|]. by intros [qqs self1].
Qed.

(** X15: the program writes no file at all, whatever the command line, the
    files, the lines typed and the outcome: in particular it leaves no
    metrics snapshot, and an existing one stays as it was. *)
Lemma main_keeps_fs a : keeps_fs (main a).
Proof.
  unfold main.
  apply keeps_fs_bind; [apply keeps_fs_from_json|]. intros b.
  apply keeps_fs_bind; [apply keeps_fs_generate_quiz|]. intros [qs b'].
  apply keeps_fs_bind; [apply keeps_fs_run|]. by intros [res m].
Qed.

(** What [save_metrics] writes, [load_metrics] reads back. *)
Lemma save_load_metrics runner path w :
  ∃ w',
    save_metrics runner path w = (Ok (), w') ∧
    load_metrics path w' = (Ok runner, w').
Proof.
  eexists. split; [reflexivity|]. unfold load_metrics. simpl.
  by rewrite lookup_insert_eq.
Qed.

(** Two sessions that load the snapshot before and save it after, which is
    what [load_metrics] and [save_metrics] are there for, do accumulate: id 7
    asked once with a correct and once with an incorrect answer ends as
    asked 2, correct 1. *)
Example metrics_through_snapshot :
  let first : M unit :=
    '(_, m) ← QuizRunner.run QuizRunner.init [Sample.france];
    save_metrics m "metrics.pkl" in
  let second : M unit :=
    m0 ← load_metrics "metrics.pkl";
    '(_, m) ← QuizRunner.run m0 [Sample.france];
    save_metrics m "metrics.pkl" in
  ∃ w1 w2,
    first (Sample.terminal ["Paris"]) = (Ok (), w1) ∧
    second {| fs := fs w1; stdin := ["Rome"]; random := [] |} = (Ok (), w2) ∧
    fs w2 !! "metrics.pkl"
    = Some (PickleFile {[ 7 := {| asked := 2; correct_count := 1 |} ]}).
Proof. eexists _, _. split; [reflexivity|]. split; reflexivity. Qed.

(** C3 on the code: the program is run twice on a bank with the question of
    id 7, answered correctly the first time and incorrectly the second.
    Neither run leaves a metrics file; and when a snapshot from an earlier
    session is on disk, the program neither reads nor updates it. *)
Theorem main_discards_metrics :
  ∃ res1 res2 res3,
    main Sample.no_args (Sample.france_disk ["Paris"])
    = (Ok res1, Sample.france_disk []) ∧
    QuizQuestion.is_correct <$> QuizResult.quiz_questions res1 = [true] ∧
    main Sample.no_args (Sample.france_disk ["Rome"])
    = (Ok res2, Sample.france_disk []) ∧
    QuizQuestion.is_correct <$> QuizResult.quiz_questions res2 = [false] ∧
    fs (Sample.france_disk []) !! "metrics.pkl" = None ∧
    let before := {[ 7 := {| asked := 1; correct_count := 1 |} ]} in
    main Sample.no_args (Sample.france_disk_snapshot before ["Rome"])
    = (Ok res3, Sample.france_disk_snapshot before []) ∧
    fs (Sample.france_disk_snapshot before []) !! "metrics.pkl"
    = Some (PickleFile before).
Proof.
  eexists _, _, _.
  split; [vm_compute; reflexivity|]. split; [reflexivity|].
  split; [vm_compute; reflexivity|]. split; [reflexivity|].
  split; [reflexivity|].
  split; [vm_compute; reflexivity|reflexivity].
Qed.

End persistence.

(** * Further properties of the code *)

(** ** QuestionBank.filter *)

Section filter.

Implicit Types (bank : QuestionBank.t).

Lemma filter_sublist_elem bank topic difficulty :
  QuestionBank.filter bank topic difficulty
    `sublist_of` QuestionBank.questions bank ∧
  ∀ q, q ∈ QuestionBank.filter bank topic difficulty ↔
       q ∈ QuestionBank.questions bank ∧
       (Py.truthy_str topic = true → Some (Question.topic q) = topic) ∧
       (Py.truthy_str difficulty = true →
          Some (Question.difficulty q) = difficulty).
Proof.
  unfold QuestionBank.filter. split.
  - repeat case_match;
      repeat (etrans; [apply sublist_filter|]); done.
  - intros q.
    destruct (Py.truthy_str topic), (Py.truthy_str difficulty);
      rewrite ?list_elem_of_filter; intuition congruence.
Qed.

(** X1: [filter] keeps the order of the bank and returns exactly the
    questions that meet every criterion given; a criterion that is [None] or
    the empty string excludes nothing. *)
Theorem filter_spec bank topic difficulty :
  QuestionBank.filter bank topic difficulty
    `sublist_of` QuestionBank.questions bank ∧
  ∀ q, q ∈ QuestionBank.filter bank topic difficulty ↔
       q ∈ QuestionBank.questions bank ∧
       (Py.truthy_str topic = true → Some (Question.topic q) = topic) ∧
       (Py.truthy_str difficulty = true →
          Some (Question.difficulty q) = difficulty).
Proof. apply filter_sublist_elem. Qed.

(** X2: filtering by topic and then filtering the result by difficulty, or
    the other way round, is filtering by both at once; filtering a second
    time by the same criteria changes nothing. *)
Theorem filter_compose bank topic difficulty :
  QuestionBank.filter
    (QuestionBank.mk (QuestionBank.filter bank topic None)) None difficulty
  = QuestionBank.filter bank topic difficulty ∧
  QuestionBank.filter
    (QuestionBank.mk (QuestionBank.filter bank None difficulty)) topic None
  = QuestionBank.filter bank topic difficulty ∧
  QuestionBank.filter
    (QuestionBank.mk (QuestionBank.filter bank topic difficulty))
    topic difficulty
  = QuestionBank.filter bank topic difficulty.
Proof.
  unfold QuestionBank.filter. simpl.
  destruct (Py.truthy_str topic), (Py.truthy_str difficulty);
    repeat split; try done;
    rewrite ?list_filter_filter; apply list_filter_iff; intros ?; tauto.
Qed.

End filter.

(** ** QuestionBank.from_json: the records of a file *)

Section records.

Lemma init_all_Forall2 l qs :
  QuestionBank.init_all l = Ok qs ↔
  Forall2 (λ j q, ∃ kw, j = JObj kw ∧ Question.init kw = Ok q) l qs.
Proof.
  revert qs. induction l as [|j l IH]; intros qs; simpl.
  - split; [intros [= <-]; constructor|]. by intros ->%Forall2_nil_inv_l.
  - split.
    + intros Hl. destruct j as [| | | | |kw]; try done.
      destruct (Question.init kw) as [q| |] eqn:Hq; [|done|].
      * destruct (QuestionBank.init_all l) as [qs'| |] eqn:Hqs; try done.
        injection Hl as <-. constructor; [by eauto|]. by apply IH.
      * by destruct (QuestionBank.init_all l).
    + intros (q & qs' & (kw & -> & Hq) & Hqs & ->)%Forall2_cons_inv_l.
      apply IH in Hqs. by rewrite Hq, Hqs.
Qed.

(** X3: a bank loads exactly when every record of the file builds a
    question, and then it holds one question for each record, in the order of
    the file: one record that does not build leaves no bank at all. *)
Theorem loads_records data bank :
  QuestionBank.loads data = Ok bank ↔
  ∃ l, QuestionBank.records data = Ok l ∧
       Forall2 (λ j q, ∃ kw, j = JObj kw ∧ Question.init kw = Ok q)
         l (QuestionBank.questions bank).
Proof.
  unfold QuestionBank.loads. destruct bank as [qs]. simpl. split.
  - destruct (QuestionBank.records data) as [l| |]; try done.
    destruct (QuestionBank.init_all l) as [qs'| |] eqn:Hqs; try done.
    intros [= <-]. exists l. split; [done|]. by apply init_all_Forall2.
  - intros (l & -> & Hl). apply init_all_Forall2 in Hl. by rewrite Hl.
Qed.

End records.

(** ** QuizRunner.run: order, end of input, score, metrics *)

Section sessions.

Local Abbreviation graded :=
  (λ q line, QuizQuestion.mk q (QuizRunner.grade q line).1
               (QuizRunner.grade q line).2).
Local Abbreviation tally :=
  (foldl (λ m qq, QuizRunner.record m
                    (Question.id (QuizQuestion.question qq))
                    (QuizQuestion.is_correct qq))).
Local Abbreviation zero := {| asked := 0; correct_count := 0 |}.

(** With a line for every question the comprehension pairs the questions
    with the lines in order and counts each answer in the metrics. *)
Lemma ask_all_exact questions : ∀ self w,
  (length questions ≤ length (stdin w))%nat →
  QuizRunner.ask_all self questions w =
    (Ok (zip_with graded questions (stdin w),
         tally self (zip_with graded questions (stdin w))),
     {| fs := fs w; stdin := drop (length questions) (stdin w);
        random := random w |}).
Proof.
  induction questions as [|q questions IH]; intros self w Hlen.
  - simpl. rewrite drop_0. by destruct w.
  - destruct (stdin w) as [|line rest] eqn:Hin; simpl in Hlen; [lia|].
    simpl. unfold mbind, M_bind, bind.
    rewrite (ask_question_line self q w line rest Hin).
    rewrite IH by (simpl; lia). reflexivity.
Qed.

(** When the lines run out before the questions do, the comprehension ends
    in [EOFError] with every line read. *)
Lemma ask_all_eof questions : ∀ self w,
  (length (stdin w) < length questions)%nat →
  QuizRunner.ask_all self questions w =
    (Raise EOFError, {| fs := fs w; stdin := []; random := random w |}).
Proof.
  induction questions as [|q questions IH]; intros self w Hlen;
    [simpl in Hlen; lia|].
  simpl. unfold mbind, M_bind, bind.
  destruct (stdin w) as [|line rest] eqn:Hin.
  - rewrite (ask_question_eof self q w Hin). destruct w. simpl in *.
    by rewrite Hin.
  - rewrite (ask_question_line self q w line rest Hin).
    rewrite IH by (simpl in *; lia). reflexivity.
Qed.

Lemma fmap_question_graded questions : ∀ lines : list string,
  (length questions ≤ length lines)%nat →
  QuizQuestion.question <$> zip_with graded questions lines = questions.
Proof.
  induction questions as [|q questions IH]; intros lines Hlen; [done|].
  destruct lines as [|line lines]; simpl in Hlen; [lia|].
  simpl. f_equal. apply IH. lia.
Qed.

Lemma run_lines self questions w :
  (length questions ≤ length (stdin w))%nat →
  ∃ qqs,
    QuizRunner.run self questions w =
      (Ok (QuizResult.mk qqs (QuizRunner.score_of qqs)
             (QuizRunner.detail <$> qqs),
           tally self qqs),
       {| fs := fs w; stdin := drop (length questions) (stdin w);
          random := random w |}) ∧
    QuizQuestion.question <$> qqs = questions.
Proof.
  intros Hlen. exists (zip_with graded questions (stdin w)). split.
  - unfold QuizRunner.run, mbind, M_bind, bind.
    rewrite ask_all_exact by done. reflexivity.
  - by apply fmap_question_graded.
Qed.

(** X4: given a line for every question, a session asks the questions once
    each, in the order given: the i-th record holds the i-th question with
    the answer and grade of the i-th line, the i-th detail reports that
    record, exactly as many lines are read as there are questions, and the
    files and the random source are left alone. *)
Theorem run_in_order self questions w :
  (length questions ≤ length (stdin w))%nat →
  ∃ res self' w',
    QuizRunner.run self questions w = (Ok (res, self'), w') ∧
    QuizResult.quiz_questions res = zip_with graded questions (stdin w) ∧
    QuizQuestion.question <$> QuizResult.quiz_questions res = questions ∧
    QuizResult.details res
    = QuizRunner.detail <$> QuizResult.quiz_questions res ∧
    stdin w' = drop (length questions) (stdin w) ∧
    fs w' = fs w ∧ random w' = random w.
Proof.
  intros Hlen. eexists _, _, _. split.
  { unfold QuizRunner.run, mbind, M_bind, bind.
    rewrite ask_all_exact by done. reflexivity. }
  simpl. repeat split.
  revert Hlen. generalize (stdin w). clear.
  induction questions as [|q questions IH]; intros lines Hlen; [done|].
  destruct lines as [|line lines]; simpl in Hlen; [lia|].
  simpl. f_equal. apply IH. lia.
Qed.

Lemma run_in_order_witness :
  ∃ res self' w',
    QuizRunner.run ∅ [Sample.sum; Sample.france]
      (Sample.terminal ["2"; "rome"; "unread"]) = (Ok (res, self'), w') ∧
    QuizResult.quiz_questions res
    = zip_with graded [Sample.sum; Sample.france] ["2"; "rome"; "unread"] ∧
    QuizQuestion.question <$> QuizResult.quiz_questions res
    = [Sample.sum; Sample.france] ∧
    QuizResult.details res
    = QuizRunner.detail <$> QuizResult.quiz_questions res ∧
    stdin w' = drop 2 ["2"; "rome"; "unread"] ∧
    fs w' = ∅ ∧ random w' = [].
Proof.
  apply (run_in_order ∅ [Sample.sum; Sample.france]
           (Sample.terminal ["2"; "rome"; "unread"])).
  simpl. lia.
Defined.

(** X5: with fewer lines than questions a session ends in [EOFError] after
    reading every line, and no result is produced. *)
Theorem run_eof self questions w :
  (length (stdin w) < length questions)%nat →
  QuizRunner.run self questions w =
    (Raise EOFError, {| fs := fs w; stdin := []; random := random w |}).
Proof.
  intros Hlen. unfold QuizRunner.run, mbind, M_bind, bind.
  by rewrite ask_all_eof.
Qed.

Lemma run_eof_witness :
  QuizRunner.run ∅ [Sample.sum; Sample.france] (Sample.terminal ["2"])
  = (Raise EOFError, {| fs := ∅; stdin := []; random := [] |}).
Proof.
  apply (run_eof ∅ [Sample.sum; Sample.france] (Sample.terminal ["2"])).
  simpl. lia.
Defined.

(** *** The metrics after a session *)

Lemma tally_default qqs : ∀ (self : gmap Z Stats) k,
  default zero (tally self qqs !! k) =
    {| asked :=
         asked (default zero (self !! k))
         + Z.of_nat (length (filter
             (λ qq, Question.id (QuizQuestion.question qq) = k) qqs));
       correct_count :=
         correct_count (default zero (self !! k))
         + Z.of_nat (length (filter
             (λ qq, Question.id (QuizQuestion.question qq) = k
                    ∧ QuizQuestion.is_correct qq = true) qqs)) |}.
Proof.
  induction qqs as [|qq qqs IH]; intros self k.
  { simpl. destruct (self !! k) as [[a c]|]; simpl; f_equal; lia. }
  simpl foldl. rewrite IH. rewrite !filter_cons.
  destruct (decide (Question.id (QuizQuestion.question qq) = k)) as [<-|Hk].
  - rewrite record_lookup. simpl default.
    destruct (QuizQuestion.is_correct qq).
    + rewrite decide_True by done. simpl. f_equal; lia.
    + rewrite decide_False by (by intros [_ ?]). simpl. f_equal; lia.
  - rewrite record_lookup_ne by done.
    rewrite decide_False by (by intros [? _]). done.
Qed.

Lemma tally_is_Some qqs : ∀ (self : gmap Z Stats) k,
  is_Some (tally self qqs !! k) ↔
  is_Some (self !! k) ∨ k ∈ (Question.id ∘ QuizQuestion.question) <$> qqs.
Proof.
  induction qqs as [|qq qqs IH]; intros self k.
  { simpl. rewrite elem_of_nil. tauto. }
  simpl foldl. rewrite IH, fmap_cons, elem_of_cons. simpl.
  destruct (decide (k = Question.id (QuizQuestion.question qq))) as [->|Hk].
  - rewrite record_lookup. split; [by auto|]. intros _. left. by eexists.
  - rewrite record_lookup_ne by done. tauto.
Qed.

Lemma tally_ok qqs : ∀ (self : gmap Z Stats),
  metrics_ok self → metrics_ok (tally self qqs).
Proof.
  induction qqs as [|qq qqs IH]; intros self Hok; [done|].
  simpl. by apply IH, record_ok.
Qed.

Lemma length_filter_id (qqs : list QuizQuestion.t) k :
  length (filter (λ qq, Question.id (QuizQuestion.question qq) = k) qqs)
  = length (filter (λ q, Question.id q = k) (QuizQuestion.question <$> qqs)).
Proof.
  induction qqs as [|qq qqs IH]; [done|].
  rewrite fmap_cons, !filter_cons. case_decide; simpl; by rewrite IH.
Qed.

(** X7: after a session the metrics of every id have grown by what the
    session asked: [asked] by the number of questions with that id, [correct]
    by the number of those answered correctly, counters starting from zero
    for an id not seen before.  An id is in the metrics afterwards exactly
    when it was there before or was asked, and [0 <= correct <= asked] is
    kept. *)
Theorem run_metrics self questions w :
  (length questions ≤ length (stdin w))%nat →
  ∃ res self' w',
    QuizRunner.run self questions w = (Ok (res, self'), w') ∧
    (∀ k,
       default zero (self' !! k) =
         {| asked :=
              asked (default zero (self !! k))
              + Z.of_nat (length (filter (λ q, Question.id q = k) questions));
            correct_count :=
              correct_count (default zero (self !! k))
              + Z.of_nat (length (filter
                  (λ qq, Question.id (QuizQuestion.question qq) = k
                         ∧ QuizQuestion.is_correct qq = true)
                  (QuizResult.quiz_questions res))) |}) ∧
    (∀ k, is_Some (self' !! k) ↔
          is_Some (self !! k) ∨ k ∈ Question.id <$> questions) ∧
    (metrics_ok self → metrics_ok self').
Proof.
  intros Hlen.
  destruct (run_lines self questions w Hlen) as (qqs & Hrun & Hq).
  subst questions.
  eexists _, _, _. split; [exact Hrun|]. simpl. split; [|split].
  - intros k. by rewrite tally_default, length_filter_id.
  - intros k. by rewrite tally_is_Some, list_fmap_compose.
  - apply tally_ok.
Qed.

Lemma run_metrics_witness :
  ∃ res self' w',
    QuizRunner.run ∅ [Sample.france; Sample.sum; Sample.france]
      (Sample.terminal ["Paris"; "1"; "Rome"]) = (Ok (res, self'), w') ∧
    (∀ k,
       default zero (self' !! k) =
         {| asked :=
              asked (default zero ((∅ : gmap Z Stats) !! k))
              + Z.of_nat (length (filter (λ q, Question.id q = k)
                                    [Sample.france; Sample.sum; Sample.france]));
            correct_count :=
              correct_count (default zero ((∅ : gmap Z Stats) !! k))
              + Z.of_nat (length (filter
                  (λ qq, Question.id (QuizQuestion.question qq) = k
                         ∧ QuizQuestion.is_correct qq = true)
                  (QuizResult.quiz_questions res))) |}) ∧
    (∀ k, is_Some (self' !! k) ↔
          is_Some ((∅ : gmap Z Stats) !! k)
          ∨ k ∈ Question.id <$> [Sample.france; Sample.sum; Sample.france]) ∧
    (metrics_ok ∅ → metrics_ok self').
Proof.
  apply (run_metrics ∅ [Sample.france; Sample.sum; Sample.france]
           (Sample.terminal ["Paris"; "1"; "Rome"])).
  simpl. lia.
Defined.

(** *** Sessions one after the other *)

Lemma ask_all_app qs1 qs2 : ∀ self w,
  QuizRunner.ask_all self (qs1 ++ qs2) w =
    match QuizRunner.ask_all self qs1 w with
    | (Ok (qqs1, self1), w1) =>
        match QuizRunner.ask_all self1 qs2 w1 with
        | (Ok (qqs2, self2), w2) => (Ok (qqs1 ++ qqs2, self2), w2)
        | (Raise e, w2) => (Raise e, w2)
        | (Untyped, w2) => (Untyped, w2)
        end
    | (Raise e, w1) => (Raise e, w1)
    | (Untyped, w1) => (Untyped, w1)
    end.
Proof.
  induction qs1 as [|q qs1 IH]; intros self w.
  - simpl. unfold mret, M_ret, ret.
    destruct (QuizRunner.ask_all self qs2 w) as [[[qqs2 self2]| |] w2];
      reflexivity.
  - simpl. unfold mbind, M_bind, bind.
    destruct (QuizRunner.ask_question self q w) as [[[qq self1]| |] w1];
      [|done..].
    rewrite IH.
    destruct (QuizRunner.ask_all self1 qs1 w1) as [[[qqs1 self2]| |] w2];
      [|done..].
    unfold mret, M_ret, ret. simpl.
    destruct (QuizRunner.ask_all self2 qs2 w2) as [[[qqs2 self3]| |] w3];
      reflexivity.
Qed.

(** X8: two sessions run one after the other on the same runner are one
    session on the concatenated questions: the same lines are read, the
    records and details are those of the first session followed by those of
    the second, and the runner ends with the same metrics. *)
Theorem run_app self qs1 qs2 w r1 self1 w1 r2 self2 w2 :
  QuizRunner.run self qs1 w = (Ok (r1, self1), w1) →
  QuizRunner.run self1 qs2 w1 = (Ok (r2, self2), w2) →
  ∃ r,
    QuizRunner.run self (qs1 ++ qs2) w = (Ok (r, self2), w2) ∧
    QuizResult.quiz_questions r
    = QuizResult.quiz_questions r1 ++ QuizResult.quiz_questions r2 ∧
    QuizResult.details r = QuizResult.details r1 ++ QuizResult.details r2.
Proof.
  unfold QuizRunner.run, mbind, M_bind, bind. rewrite ask_all_app.
  destruct (QuizRunner.ask_all self qs1 w) as [[[qqs1 m1]| |] w1']; [|done..].
  intros [= <- <- <-].
  destruct (QuizRunner.ask_all m1 qs2 w1') as [[[qqs2 m2]| |] w2']; [|done..].
  intros [= <- <- <-].
  eexists. split; [reflexivity|]. simpl. split; [done|]. apply fmap_app.
Qed.

Lemma run_app_witness :
  ∃ r,
    QuizRunner.run ∅ ([Sample.france] ++ [Sample.sum])
      (Sample.terminal ["Paris"; "1"])
    = (Ok (r, {[ 7 := {| asked := 1; correct_count := 1 |};
                 1 := {| asked := 1; correct_count := 0 |} ]}),
       Sample.terminal []) ∧
    QuizResult.quiz_questions r
    = [graded Sample.france "Paris"] ++ [graded Sample.sum "1"] ∧
    QuizResult.details r
    = [QuizRunner.detail (graded Sample.france "Paris")]
      ++ [QuizRunner.detail (graded Sample.sum "1")].
Proof.
  apply (run_app ∅ [Sample.france] [Sample.sum]
           (Sample.terminal ["Paris"; "1"])
           (QuizResult.mk [graded Sample.france "Paris"] 100%float
              [QuizRunner.detail (graded Sample.france "Paris")])
           {[ 7 := {| asked := 1; correct_count := 1 |} ]}
           (Sample.terminal ["1"])
           (QuizResult.mk [graded Sample.sum "1"] 0%float
              [QuizRunner.detail (graded Sample.sum "1")])); reflexivity.
Defined.

End sessions.

(** ** QuizRunner.ask_question: what does not change the grade *)

Section grading.

Import Py.

Lemma lower_empty s : lower s = EmptyString ↔ s = EmptyString.
Proof. by destruct s. Qed.

Lemma grade_strip q line :
  QuizRunner.grade q (strip line) = QuizRunner.grade q line.
Proof. unfold QuizRunner.grade. by rewrite strip_idem. Qed.

(** X9: whitespace around the line typed changes nothing: the record
    returned and the metrics are those of the trimmed line, for both types
    of question. *)
Theorem ask_question_trims self q f g line rest :
  QuizRunner.ask_question self q
    {| fs := f; stdin := strip line :: rest; random := g |}
  = QuizRunner.ask_question self q
      {| fs := f; stdin := line :: rest; random := g |}.
Proof.
  rewrite (ask_question_line self q
             {| fs := f; stdin := strip line :: rest; random := g |}
             (strip line) rest eq_refl).
  rewrite (ask_question_line self q
             {| fs := f; stdin := line :: rest; random := g |}
             line rest eq_refl).
  by rewrite grade_strip.
Qed.

(** X10: for a free-text question the case of the letters typed changes
    nothing: two lines that are equal once lower-cased give the same record
    and the same metrics. *)
Theorem ask_question_ignores_case self q f g line line' rest :
  Question.type q ≠ "mcq" →
  lower line = lower line' →
  QuizRunner.ask_question self q
    {| fs := f; stdin := line :: rest; random := g |}
  = QuizRunner.ask_question self q
      {| fs := f; stdin := line' :: rest; random := g |}.
Proof.
  intros Hty%String.eqb_neq Hlow.
  rewrite (ask_question_line self q
             {| fs := f; stdin := line :: rest; random := g |}
             line rest eq_refl).
  rewrite (ask_question_line self q
             {| fs := f; stdin := line' :: rest; random := g |}
             line' rest eq_refl).
  unfold QuizRunner.grade. rewrite Hty.
  by rewrite !lower_strip, Hlow.
Qed.

Lemma ask_question_ignores_case_witness :
  QuizRunner.ask_question ∅ Sample.france
    {| fs := ∅; stdin := ["PARIS"]; random := [] |}
  = QuizRunner.ask_question ∅ Sample.france
      {| fs := ∅; stdin := ["pArIs"]; random := [] |}.
Proof.
  apply (ask_question_ignores_case ∅ Sample.france ∅ [] "PARIS" "pArIs" []);
    [discriminate|reflexivity].
Defined.

(** X11: questions without their type-specific field are still graded.  A
    multiple-choice question without a correct index is graded incorrect
    whatever is typed; a free-text question without an answer is graded
    correct exactly when the line typed is blank. *)
Theorem ask_question_missing_field self q w line rest :
  stdin w = line :: rest →
  ∃ qq self' w',
    QuizRunner.ask_question self q w = (Ok (qq, self'), w') ∧
    (Question.type q = "mcq" → Question.correct q = None →
       QuizQuestion.is_correct qq = false) ∧
    (Question.type q ≠ "mcq" → Question.answer q = None →
       (QuizQuestion.is_correct qq = true ↔ strip line = EmptyString)).
Proof.
  intros Hin. eexists _, _, _. split; [by apply ask_question_line|].
  simpl. unfold QuizRunner.grade. split.
  - intros -> ->. simpl. by destruct (int (strip line)).
  - intros Hty%String.eqb_neq ->. rewrite Hty. simpl.
    rewrite String.eqb_eq. apply lower_empty.
Qed.

Lemma ask_question_missing_field_witness :
  ∃ qq self' w',
    QuizRunner.ask_question ∅
      (Question.mk 2 "2 + 2 = ?" "short" "easy" "math" [] "four"
         None None None)
      (Sample.terminal ["  "]) = (Ok (qq, self'), w') ∧
    ("short" = "mcq" → (None : option Z) = None →
       QuizQuestion.is_correct qq = false) ∧
    ("short" ≠ "mcq" → (None : option string) = None →
       (QuizQuestion.is_correct qq = true ↔ strip "  " = EmptyString)).
Proof.
  apply (ask_question_missing_field ∅
           (Question.mk 2 "2 + 2 = ?" "short" "easy" "math" [] "four"
              None None None)
           (Sample.terminal ["  "]) "  " []).
  reflexivity.
Defined.

End grading.

(** ** QuizGenerator.generate_quiz: errors, selection, the bank *)

Section generate_more.

Implicit Types (bank : QuestionBank.t).

(** A pair of the policy on which [random.sample] raises: a negative count
    for a pool that is not empty. *)
Local Abbreviation bad_pair bank topic :=
  (λ item : string * Z,
     item.2 < 0 ∧ QuestionBank.filter bank topic (Some item.1) ≠ []).

Lemma by_difficulty_cases bank topic items : ∀ selection w,
  (Exists (bad_pair bank topic) items ∧
   ∃ w', QuizGenerator.by_difficulty bank topic items selection w
         = (Raise ValueError, w') ∧ fs w' = fs w ∧ stdin w' = stdin w)
  ∨ (¬ Exists (bad_pair bank topic) items ∧
     ∃ draws w',
       QuizGenerator.by_difficulty bank topic items selection w
       = (Ok (selection ++ concat draws), w') ∧
       Forall2 (QuizGenerator.contribution bank topic) items draws ∧
       fs w' = fs w ∧ stdin w' = stdin w).
Proof.
  induction items as [|[d c] items IH]; intros selection w.
  { right. split; [by intros ?%Exists_nil|].
    exists [], w. simpl. by rewrite app_nil_r. }
  destruct (QuestionBank.filter bank topic (Some d)) as [|x pool] eqn:Hpool.
  - destruct (IH selection w)
      as [(HE & w' & Hrun & Hfr)|(HNE & draws & w' & Hrun & Hdraws & Hfr)].
    + left. split; [by apply Exists_cons_tl|].
      exists w'. simpl. by rewrite Hpool.
    + right. split.
      { intros [[_ Hne]|HE]%Exists_cons; [|done]. simpl in Hne. congruence. }
      exists ([] :: draws), w'. split; [|split; [|done]].
      * simpl. by rewrite Hpool.
      * constructor; [|done]. unfold QuizGenerator.contribution. simpl.
        rewrite Hpool. simpl. split; [lia|done].
  - destruct (decide (c < 0)) as [Hc|Hc].
    + left. split.
      { apply Exists_cons_hd. simpl. split; [done|]. by rewrite Hpool. }
      exists w. split; [|done].
      apply by_difficulty_negative; [done|]. by rewrite Hpool.
    + destruct (sample_ok (x :: pool)
                  (c `min` Z.of_nat (length (x :: pool))) w)
        as (xs & w1 & Hs & Hlen & Hsub & Hfs1 & Hin1); [lia|].
      assert (QuizGenerator.by_difficulty bank topic ((d, c) :: items)
                selection w
              = QuizGenerator.by_difficulty bank topic items
                  (selection ++ xs) w1) as Hstep.
      { simpl. rewrite Hpool. unfold mbind, M_bind, bind. by rewrite Hs. }
      rewrite Hstep.
      destruct (IH (selection ++ xs) w1)
        as [(HE & w' & Hrun & Hfs & Hin)
           |(HNE & draws & w' & Hrun & Hdraws & Hfs & Hin)].
      * left. split; [by apply Exists_cons_tl|].
        exists w'. split; [done|]. split; congruence.
      * right. split.
        { intros [[Hneg _]|HE]%Exists_cons; [|done]. simpl in Hneg. lia. }
        exists (xs :: draws), w'. split; [|split; [|split; congruence]].
        -- rewrite Hrun. simpl. by rewrite <- app_assoc.
        -- constructor; [|done]. unfold QuizGenerator.contribution. simpl.
           rewrite Hpool. split; [done|]. split; [done|].
           intros Hall. apply submseteq_length_Permutation; [done|]. lia.
Qed.

(** The call with per-difficulty counts. *)
Lemma generate_counts_cases bank config num w :
  QuizConfig.counts_by_difficulty config ≠ [] →
  (Exists (bad_pair bank (QuizConfig.topic config))
     (QuizConfig.counts_by_difficulty config) ∧
   ∃ w', QuizGenerator.generate_quiz bank config num w
         = (Raise ValueError, w') ∧ fs w' = fs w ∧ stdin w' = stdin w)
  ∨ (¬ Exists (bad_pair bank (QuizConfig.topic config))
         (QuizConfig.counts_by_difficulty config) ∧
     ∃ draws selection w',
       QuizGenerator.generate_quiz bank config num w
       = (Ok (selection, bank), w') ∧
       Forall2 (QuizGenerator.contribution bank (QuizConfig.topic config))
         (QuizConfig.counts_by_difficulty config) draws ∧
       selection ≡ₚ concat draws ∧
       fs w' = fs w ∧ stdin w' = stdin w).
Proof.
  intros Hne. unfold QuizGenerator.generate_quiz.
  destruct (QuizConfig.counts_by_difficulty config) as [|item items] eqn:Hc;
    [done|]. rewrite <- Hc. clear Hne.
  destruct (by_difficulty_cases bank (QuizConfig.topic config)
              (QuizConfig.counts_by_difficulty config) [] w)
    as [(HE & w1 & Hrun & Hfr)|(HNE & draws & w1 & Hrun & Hdraws & Hfs & Hin)].
  - left. split; [done|]. exists w1. split; [|done].
    unfold mbind, M_bind, bind. by rewrite Hrun.
  - right. split; [done|].
    destruct (shuffle_ok (concat draws) w1)
      as (selection & w' & Hsh & Hperm & Hfs' & Hin').
    exists draws, selection, w'. split; [|split; [done|split; [done|]]].
    + unfold mbind, M_bind, bind. rewrite Hrun. simpl. by rewrite Hsh.
    + split; congruence.
Qed.

(** The call without per-difficulty counts. *)
Lemma generate_flat_cases bank config num w :
  QuizConfig.counts_by_difficulty config = [] →
  let pool := QuestionBank.filter bank (QuizConfig.topic config) None in
  ((∃ n, num = Some n ∧ n < 0) ∧
   QuizGenerator.generate_quiz bank config num w = (Raise ValueError, w))
  ∨ ((∃ n, num = Some n ∧ 0 < n) ∧
     ∃ selection w',
       QuizGenerator.generate_quiz bank config num w
       = (Ok (selection, bank), w') ∧
       selection ⊆+ pool ∧
       length selection
       = Z.to_nat (default 0 num `min` Z.of_nat (length pool)) ∧
       fs w' = fs w ∧ stdin w' = stdin w)
  ∨ ((num = None ∨ num = Some 0) ∧
     ∃ selection w',
       QuizGenerator.generate_quiz bank config num w
       = (Ok (selection,
              if Py.truthy_str (QuizConfig.topic config) then bank
              else QuestionBank.mk selection), w') ∧
       selection ≡ₚ pool ∧
       fs w' = fs w ∧ stdin w' = stdin w).
Proof.
  intros Hc pool. unfold QuizGenerator.generate_quiz. rewrite Hc. fold pool.
  destruct num as [n|]; simpl.
  - destruct (Z.eqb_spec n 0) as [->|Hn0]; simpl.
    + right. right. split; [by right|].
      destruct (shuffle_ok pool w) as (selection & w' & Hsh & Hperm & Hfr).
      exists selection, w'. split; [|done].
      unfold mbind, M_bind, bind. by rewrite Hsh.
    + destruct (decide (n < 0)) as [Hneg|Hpos].
      * left. split; [by eauto|]. unfold mbind, M_bind, bind.
        rewrite sample_negative; [done|lia].
      * right. left. split; [exists n; split; [done|lia]|].
        destruct (sample_ok pool (n `min` Z.of_nat (length pool)) w)
          as (xs & w1 & Hs & Hlen & Hsub & Hfs1 & Hin1); [lia|].
        destruct (shuffle_ok xs w1)
          as (selection & w' & Hsh & Hperm & Hfs' & Hin').
        exists selection, w'. split; [|split; [|split; [|split]]].
        -- unfold mbind, M_bind, bind. rewrite Hs. simpl. by rewrite Hsh.
        -- by rewrite Hperm.
        -- by rewrite Hperm.
        -- congruence.
        -- congruence.
  - right. right. split; [by left|].
    destruct (shuffle_ok pool w) as (selection & w' & Hsh & Hperm & Hfr).
    exists selection, w'. split; [|done].
    unfold mbind, M_bind, bind. by rewrite Hsh.
Qed.

Lemma elem_of_draws bank topic items draws q :
  Forall2 (QuizGenerator.contribution bank topic) items draws →
  q ∈ concat draws →
  ∃ item, item ∈ items ∧ q ∈ QuestionBank.filter bank topic (Some item.1).
Proof.
  induction 1 as [|item dr items draws Hdr _ IH]; simpl.
  { by intros ?%elem_of_nil. }
  intros [Hq|Hq]%elem_of_app.
  - exists item. split; [by left|].
    destruct Hdr as (_ & Hsub & _). by eapply elem_of_submseteq.
  - destruct (IH Hq) as (item' & Hin & Hq'). exists item'.
    split; [by right|done].
Qed.

Lemma filter_in_topic bank topic difficulty q :
  q ∈ QuestionBank.filter bank topic difficulty →
  q ∈ QuestionBank.filter bank topic None.
Proof.
  rewrite !(proj2 (filter_sublist_elem bank topic _) q). simpl.
  intros (? & ? & _). by repeat split.
Qed.

(** X12: [generate_quiz] raises in exactly two situations, both times a
    [ValueError]: with per-difficulty counts, when some count is negative
    and its pool is not empty; without them, when the number of questions is
    negative.  In every other situation it returns a selection. *)
Theorem generate_quiz_raises bank config num w :
  let fails :=
    match QuizConfig.counts_by_difficulty config with
    | [] => ∃ n, num = Some n ∧ n < 0
    | _ => Exists (bad_pair bank (QuizConfig.topic config))
             (QuizConfig.counts_by_difficulty config)
    end in
  (fails ↔
     ∃ w', QuizGenerator.generate_quiz bank config num w
           = (Raise ValueError, w')) ∧
  (¬ fails ↔
     ∃ selection bank' w',
       QuizGenerator.generate_quiz bank config num w
       = (Ok (selection, bank'), w')).
Proof.
  destruct (QuizConfig.counts_by_difficulty config) as [|item items] eqn:Hc;
    cbv zeta.
  - destruct (generate_flat_cases bank config num w Hc)
      as [[Hf Hrun]|[[(n & -> & Hn) (sel & w' & Hrun & _)]
                    |[Hn (sel & w' & Hrun & _)]]];
      rewrite Hrun.
    + split; [split; [by eauto|done]|].
      split; [done|by intros (? & ? & ? & ?)].
    + assert (¬ ∃ n0, Some n = Some n0 ∧ n0 < 0) as Hnf
        by (intros (? & [= <-] & ?); lia).
      split; [split; [done|by intros [? ?]]|]. split; [by eauto|done].
    + assert (¬ ∃ n0, num = Some n0 ∧ n0 < 0) as Hnf.
      { intros (n & -> & ?). destruct Hn as [?|[= ->]]; [done|lia]. }
      split; [split; [done|by intros [? ?]]|]. split; [by eauto|done].
  - rewrite <- Hc.
    destruct (generate_counts_cases bank config num w)
      as [(HE & w' & Hrun & _)|(HNE & draws & sel & w' & Hrun & _)];
      [by rewrite Hc| |]; rewrite Hrun.
    + split; [split; [by eauto|done]|].
      split; [done|by intros (? & ? & ? & ?)].
    + split; [split; [done|by intros [? ?]]|]. split; [by eauto|done].
Qed.

(** X13: whatever [generate_quiz] returns was in the bank and meets the
    topic of the policy; with per-difficulty counts each returned question
    also comes from the pool of one of the pairs of the policy.  The call
    reads no line and touches no file. *)
Theorem generate_quiz_selects bank config num w selection bank' w' :
  QuizGenerator.generate_quiz bank config num w
  = (Ok (selection, bank'), w') →
  Forall (λ q,
            q ∈ QuestionBank.filter bank (QuizConfig.topic config) None ∧
            (QuizConfig.counts_by_difficulty config ≠ [] →
               ∃ item, item ∈ QuizConfig.counts_by_difficulty config ∧
                       q ∈ QuestionBank.filter bank (QuizConfig.topic config)
                             (Some item.1)))
    selection ∧
  fs w' = fs w ∧ stdin w' = stdin w.
Proof.
  intros Hgen.
  destruct (QuizConfig.counts_by_difficulty config) as [|item items] eqn:Hc.
  - destruct (generate_flat_cases bank config num w Hc)
      as [[_ Hrun]|[[_ (sel & w1 & Hrun & Hsub & _ & Hfr)]
                   |[_ (sel & w1 & Hrun & Hperm & Hfr)]]];
      rewrite Hgen in Hrun; [done|..]; injection Hrun as <- _ <-;
      (split; [|done]); apply Forall_forall; intros q Hq; (split; [|done]).
    + by eapply elem_of_submseteq.
    + by rewrite <- Hperm.
  - rewrite <- Hc in *.
    destruct (generate_counts_cases bank config num w)
      as [(_ & w1 & Hrun & _)|(_ & draws & sel & w1 & Hrun & Hd & Hperm & Hfr)];
      [by rewrite Hc|..]; rewrite Hgen in Hrun; [done|].
    injection Hrun as <- _ <-. split; [|done].
    apply Forall_forall. intros q Hq. rewrite Hperm in Hq.
    destruct (elem_of_draws _ _ _ _ _ Hd Hq) as (it & Hin & Hpool).
    split; [by eapply filter_in_topic|]. eauto.
Qed.

Lemma generate_quiz_selects_witness :
  Forall (λ q,
            q ∈ QuestionBank.filter
                  (QuestionBank.mk [Sample.sum; Sample.france]) None None ∧
            ([("easy", 1)] ≠ [] →
               ∃ item, item ∈ [("easy", 1)] ∧
                       q ∈ QuestionBank.filter
                             (QuestionBank.mk [Sample.sum; Sample.france])
                             None (Some item.1)))
    [Sample.sum] ∧
  fs (Sample.terminal []) = fs (Sample.terminal []) ∧
  stdin (Sample.terminal []) = stdin (Sample.terminal []).
Proof.
  apply (generate_quiz_selects (QuestionBank.mk [Sample.sum; Sample.france])
           (QuizConfig.mk [("easy", 1)] None) None (Sample.terminal [])
           [Sample.sum] (QuestionBank.mk [Sample.sum; Sample.france])
           (Sample.terminal [])).
  reflexivity.
Defined.

(** X14: the bank after [generate_quiz].  Without per-difficulty counts,
    without a number of questions (or with 0) and without a topic, the list
    returned is the list of the bank itself, so the shuffle reorders the
    bank: afterwards the bank holds its questions in the order returned.  In
    every other case the bank is as before.  The questions of the bank are
    always the same, up to their order. *)
Theorem generate_quiz_bank bank config num w selection bank' w' :
  QuizGenerator.generate_quiz bank config num w
  = (Ok (selection, bank'), w') →
  QuestionBank.questions bank' ≡ₚ QuestionBank.questions bank ∧
  bank' =
    (if bool_decide (QuizConfig.counts_by_difficulty config = [])
        && negb (Py.truthy_int num)
        && negb (Py.truthy_str (QuizConfig.topic config))
     then QuestionBank.mk selection else bank).
Proof.
  intros Hgen.
  destruct (QuizConfig.counts_by_difficulty config) as [|item items] eqn:Hc.
  - destruct (generate_flat_cases bank config num w Hc)
      as [[_ Hrun]|[[(n & -> & Hn) (sel & w1 & Hrun & _)]
                   |[Hn (sel & w1 & Hrun & Hperm & _)]]];
      rewrite Hgen in Hrun; [done|..]; injection Hrun as <- -> <-.
    + split; [done|]. simpl. rewrite ?bool_decide_eq_true_2 by done.
      replace (n =? 0) with false by (symmetry; apply Z.eqb_neq; lia). done.
    + assert (Py.truthy_int num = false) as ->
        by (by destruct Hn as [->| ->]).
      rewrite ?bool_decide_eq_true_2 by done. simpl.
      destruct (Py.truthy_str (QuizConfig.topic config)) eqn:Ht;
        simpl; [done|]. split; [|done]. rewrite Hperm.
      unfold QuestionBank.filter. simpl. by rewrite Ht.
  - rewrite <- Hc in *.
    destruct (generate_counts_cases bank config num w)
      as [(_ & w1 & Hrun & _)|(_ & draws & sel & w1 & Hrun & _)];
      [by rewrite Hc|..]; rewrite Hgen in Hrun; [done|].
    injection Hrun as <- -> <-. split; [done|].
    rewrite bool_decide_eq_false_2; [done|]. by rewrite Hc.
Qed.

Lemma generate_quiz_bank_witness :
  QuestionBank.questions (QuestionBank.mk [Sample.france; Sample.sum])
  ≡ₚ QuestionBank.questions (QuestionBank.mk [Sample.sum; Sample.france]) ∧
  QuestionBank.mk [Sample.france; Sample.sum] =
    (if bool_decide (QuizConfig.counts_by_difficulty (QuizConfig.mk [] None)
                     = [])
        && negb (Py.truthy_int None)
        && negb (Py.truthy_str (QuizConfig.topic (QuizConfig.mk [] None)))
     then QuestionBank.mk [Sample.france; Sample.sum]
     else QuestionBank.mk [Sample.sum; Sample.france]).
Proof.
  apply (generate_quiz_bank (QuestionBank.mk [Sample.sum; Sample.france])
           (QuizConfig.mk [] None) None
           {| fs := ∅; stdin := []; random := [1%nat] |}
           [Sample.france; Sample.sum]
           (QuestionBank.mk [Sample.france; Sample.sum])
           {| fs := ∅; stdin := []; random := [] |}).
  reflexivity.
Defined.

End generate_more.

(** ** main: from the command line to the result *)

Section program.

(** The policy [main] builds from the three difficulty options. *)
Local Abbreviation counts_of a :=
  (filter (λ '(diff, count), 0 < count)
     (zip ["easy"; "medium"; "hard"] [easy a; medium a; hard a])).

Local Abbreviation drawn_for b a label count :=
  (Z.to_nat
     (count `min`
      Z.of_nat (length (QuestionBank.filter b (topic a) (Some label))))).

Lemma from_json_world path w : (QuestionBank.from_json path w).2 = w.
Proof. unfold QuestionBank.from_json. by repeat case_match. Qed.

Lemma main_after_load a w b :
  (QuestionBank.from_json (bank a) w).1 = Ok b →
  main a w =
    match QuizGenerator.generate_quiz b
            (QuizConfig.mk (counts_of a) (topic a)) (num_questions a) w with
    | (Ok (questions, _), w1) =>
        match QuizRunner.run QuizRunner.init questions w1 with
        | (Ok (result, _), w2) => (Ok result, w2)
        | (Raise e, w2) => (Raise e, w2)
        | (Untyped, w2) => (Untyped, w2)
        end
    | (Raise e, w1) => (Raise e, w1)
    | (Untyped, w1) => (Untyped, w1)
    end.
Proof.
  intros Hload. pose proof (from_json_world (bank a) w) as Hw.
  unfold main, mbind, M_bind, bind.
  destruct (QuestionBank.from_json (bank a) w) as [r w0]. simpl in *.
  subst r w0.
  destruct (QuizGenerator.generate_quiz _ _ _ w) as [[[qs b']| |] w1];
    [|done..].
  by destruct (QuizRunner.run _ qs w1) as [[[res m]| |] w2].
Qed.

Lemma counts_of_facts a :
  Forall (λ item,
            0 < item.2 ∧
            (item = ("easy", easy a) ∨ item = ("medium", medium a)
             ∨ item = ("hard", hard a))) (counts_of a) ∧
  NoDup (counts_of a).*1 ∧
  ("" ∉ (counts_of a).*1) ∧
  (counts_of a = [] ↔ easy a ≤ 0 ∧ medium a ≤ 0 ∧ hard a ≤ 0) ∧
  ∀ f : string * Z → nat,
    (∀ item, item.2 ≤ 0 → f item = 0%nat) →
    sum_list_with f (counts_of a)
    = (f ("easy", easy a) + f ("medium", medium a) + f ("hard", hard a))%nat.
Proof.
  simpl zip. rewrite !filter_cons, filter_nil.
  destruct (decide (0 < easy a)), (decide (0 < medium a)),
    (decide (0 < hard a)).
  all: split;
         [repeat (apply Forall_cons_2; [split; [simpl; lia|simpl; auto]|]);
          apply Forall_nil_2|].
  all: split; [apply (bool_decide_unpack _); by vm_compute|].
  all: split; [apply (bool_decide_unpack _); by vm_compute|].
  all: split; [split; [intros ?; (done || lia)|intros ?; (done || lia)]|].
  all: intros f Hf; simpl.
  all: rewrite ?(Hf ("easy", easy a)), ?(Hf ("medium", medium a)),
         ?(Hf ("hard", hard a)) by (simpl; lia).
  all: lia.
Qed.

Lemma length_draws b tp items draws :
  Forall2 (QuizGenerator.contribution b tp) items draws →
  length (concat draws)
  = sum_list_with
      (λ item, Z.to_nat
                 (item.2 `min`
                  Z.of_nat (length (QuestionBank.filter b tp (Some item.1)))))
      items.
Proof.
  induction 1 as [|item dr items draws (Hlen & _) _ IH]; [done|].
  simpl. by rewrite length_app, IH, Hlen.
Qed.

(** X16: the program with at least one positive difficulty count, on a bank
    that loads and with a line for every question of the bank, returns a
    result.  The questions asked are questions of the bank, none used more
    often than the bank has it; each meets the topic and has a difficulty
    whose count is positive; for each of easy, medium and hard as many are
    asked as the count allows and the pool holds (none for a count that is
    not positive); one line is read per question asked and no file
    changes. *)
Theorem main_per_difficulty a w b :
  (QuestionBank.from_json (bank a) w).1 = Ok b →
  0 < easy a ∨ 0 < medium a ∨ 0 < hard a →
  (length (QuestionBank.questions b) ≤ length (stdin w))%nat →
  ∃ res w',
    main a w = (Ok res, w') ∧
    QuizQuestion.question <$> QuizResult.quiz_questions res
      ⊆+ QuestionBank.questions b ∧
    Forall (λ q,
              q ∈ QuestionBank.filter b (topic a) None ∧
              ((Question.difficulty q = "easy" ∧ 0 < easy a)
               ∨ (Question.difficulty q = "medium" ∧ 0 < medium a)
               ∨ (Question.difficulty q = "hard" ∧ 0 < hard a)))
      (QuizQuestion.question <$> QuizResult.quiz_questions res) ∧
    length (QuizResult.quiz_questions res)
    = (drawn_for b a "easy" (easy a) + drawn_for b a "medium" (medium a)
       + drawn_for b a "hard" (hard a))%nat ∧
    stdin w' = drop (length (QuizResult.quiz_questions res)) (stdin w) ∧
    fs w' = fs w.
Proof.
  intros Hload Hpos Hlen. rewrite (main_after_load a w b Hload).
  destruct (counts_of_facts a) as (Hitems & Hnd & Hne & Hnil & Hsum).
  destruct (generate_counts_cases b
              (QuizConfig.mk (counts_of a) (topic a)) (num_questions a) w)
    as [(HE & _)|(_ & draws & sel & w1 & Hgen & Hd & Hperm & Hfs & Hin)].
  { simpl. intros Hc%Hnil. lia. }
  { exfalso. simpl in HE. apply Exists_exists in HE as (item & Hi & Hneg & _).
    rewrite Forall_forall in Hitems. apply Hitems in Hi as [? _]. lia. }
  simpl in Hd. rewrite Hgen.
  assert (sel ⊆+ QuestionBank.questions b) as Hsub.
  { rewrite Hperm. etrans; [by eapply draws_submseteq|].
    apply filter_questions. }
  destruct (run_lines QuizRunner.init sel w1) as (qqs & Hrun & Hq).
  { rewrite Hin. apply submseteq_length in Hsub. lia. }
  rewrite Hrun. eexists _, _. split; [reflexivity|]. simpl. rewrite Hq.
  assert (length qqs = length sel) as Hlq
    by (by rewrite <- Hq, length_fmap).
  split; [done|]. split; [|split; [|split; [by rewrite Hlq, Hin|done]]].
  - apply Forall_forall. intros q Hq'. rewrite Hperm in Hq'.
    destruct (elem_of_draws _ _ _ _ _ Hd Hq') as (item & Hi & Hpool).
    split; [by eapply filter_in_topic|].
    rewrite Forall_forall in Hitems. destruct (Hitems _ Hi) as [Hc Hwhich].
    apply (proj2 (filter_sublist_elem b (topic a) (Some item.1)) q) in Hpool
      as (_ & _ & Hdiff).
    destruct Hwhich as [->|[->| ->]]; simpl in *;
      specialize (Hdiff eq_refl); injection Hdiff as Hdiff; auto.
  - rewrite Hlq, Hperm, (length_draws _ _ _ _ Hd).
    apply (Hsum (λ item, Z.to_nat
                   (item.2 `min` Z.of_nat (length
                      (QuestionBank.filter b (topic a) (Some item.1)))))).
    intros item Hi. lia.
Qed.

Lemma main_per_difficulty_witness :
  let a := {| bank := "questions.json"; topic := None; num_questions := None;
              easy := 1; medium := 0; hard := -2 |} in
  let w := Sample.france_disk ["paris"] in
  let b := QuestionBank.mk [Sample.france] in
  ∃ res w',
    main a w = (Ok res, w') ∧
    QuizQuestion.question <$> QuizResult.quiz_questions res
      ⊆+ QuestionBank.questions b ∧
    Forall (λ q,
              q ∈ QuestionBank.filter b (topic a) None ∧
              ((Question.difficulty q = "easy" ∧ 0 < easy a)
               ∨ (Question.difficulty q = "medium" ∧ 0 < medium a)
               ∨ (Question.difficulty q = "hard" ∧ 0 < hard a)))
      (QuizQuestion.question <$> QuizResult.quiz_questions res) ∧
    length (QuizResult.quiz_questions res)
    = (drawn_for b a "easy" (easy a) + drawn_for b a "medium" (medium a)
       + drawn_for b a "hard" (hard a))%nat ∧
    stdin w' = drop (length (QuizResult.quiz_questions res)) (stdin w) ∧
    fs w' = fs w.
Proof.
  intros a w b. apply (main_per_difficulty a w b).
  - reflexivity.
  - left. reflexivity.
  - simpl. lia.
Defined.

(** X17: the program without a positive difficulty count and without a
    negative number of questions, on a bank that loads and with a line for
    every question of the bank, returns a result.  The questions asked come
    from the bank filtered by topic, none used twice over; with a positive
    number [n] there are [min n (size of the pool)] of them, and with no
    number, or 0, they are the whole pool; one line is read per question
    asked and no file changes. *)
Theorem main_flat a w b :
  (QuestionBank.from_json (bank a) w).1 = Ok b →
  easy a ≤ 0 → medium a ≤ 0 → hard a ≤ 0 →
  (∀ n, num_questions a = Some n → 0 ≤ n) →
  (length (QuestionBank.questions b) ≤ length (stdin w))%nat →
  let pool := QuestionBank.filter b (topic a) None in
  ∃ res w',
    main a w = (Ok res, w') ∧
    QuizQuestion.question <$> QuizResult.quiz_questions res ⊆+ pool ∧
    length (QuizResult.quiz_questions res)
    = (if Py.truthy_int (num_questions a)
       then Z.to_nat (default 0 (num_questions a) `min` Z.of_nat (length pool))
       else length pool) ∧
    stdin w' = drop (length (QuizResult.quiz_questions res)) (stdin w) ∧
    fs w' = fs w.
Proof.
  intros Hload He Hm Hh Hnum Hlen pool.
  rewrite (main_after_load a w b Hload).
  destruct (counts_of_facts a) as (_ & _ & _ & Hnil & _).
  rewrite (proj2 Hnil) by done.
  assert (∀ sel b' w1,
    QuizGenerator.generate_quiz b (QuizConfig.mk [] (topic a))
      (num_questions a) w = (Ok (sel, b'), w1) →
    sel ⊆+ pool →
    length sel
    = (if Py.truthy_int (num_questions a)
       then Z.to_nat (default 0 (num_questions a) `min` Z.of_nat (length pool))
       else length pool) →
    fs w1 = fs w → stdin w1 = stdin w →
    ∃ res w',
      match QuizGenerator.generate_quiz b (QuizConfig.mk [] (topic a))
              (num_questions a) w with
      | (Ok (questions, _), w1) =>
          match QuizRunner.run QuizRunner.init questions w1 with
          | (Ok (result, _), w2) => (Ok result, w2)
          | (Raise e, w2) => (Raise e, w2)
          | (Untyped, w2) => (Untyped, w2)
          end
      | (Raise e, w1) => (Raise e, w1)
      | (Untyped, w1) => (Untyped, w1)
      end = (Ok res, w') ∧
      QuizQuestion.question <$> QuizResult.quiz_questions res ⊆+ pool ∧
      length (QuizResult.quiz_questions res)
      = (if Py.truthy_int (num_questions a)
         then Z.to_nat
                (default 0 (num_questions a) `min` Z.of_nat (length pool))
         else length pool) ∧
      stdin w' = drop (length (QuizResult.quiz_questions res)) (stdin w) ∧
      fs w' = fs w) as Hfinish.
  { intros sel b' w1 Hgen Hsub Hl Hfs Hin. rewrite Hgen.
    destruct (run_lines QuizRunner.init sel w1) as (qqs & Hrun & Hq).
    { rewrite Hin. apply submseteq_length in Hsub.
      pose proof (submseteq_length _ _ (filter_questions b (topic a) None))
        as Hp.
      fold pool in Hp. lia. }
    rewrite Hrun. eexists _, _. split; [reflexivity|]. simpl. rewrite Hq.
    assert (length qqs = length sel) as Hlq
      by (by rewrite <- Hq, length_fmap).
    split; [done|]. split; [by rewrite Hlq|].
    split; [by rewrite Hlq, Hin|done]. }
  destruct (generate_flat_cases b (QuizConfig.mk [] (topic a))
              (num_questions a) w eq_refl)
    as [[(n & Hn & Hneg) _]
       |[[(n & Hn & Hpos) (sel & w1 & Hgen & Hsub & Hl & Hfs & Hin)]
        |[Hn (sel & w1 & Hgen & Hperm & Hfs & Hin)]]].
  - specialize (Hnum n Hn). lia.
  - apply (Hfinish sel b w1); try done.
    rewrite Hn. simpl.
    replace (n =? 0) with false by (symmetry; apply Z.eqb_neq; lia).
    simpl. by rewrite Hl, Hn.
  - eapply (Hfinish sel _ w1); try done.
    + by rewrite Hperm.
    + assert (Py.truthy_int (num_questions a) = false) as ->
        by (by destruct Hn as [->| ->]).
      by rewrite Hperm.
Qed.

Lemma main_flat_witness :
  let a := {| bank := "questions.json"; topic := Some "geo";
              num_questions := Some 4; easy := 0; medium := 0; hard := 0 |} in
  let w := Sample.france_disk ["paris"; "unread"] in
  let pool := QuestionBank.filter (QuestionBank.mk [Sample.france])
                (topic a) None in
  ∃ res w',
    main a w = (Ok res, w') ∧
    QuizQuestion.question <$> QuizResult.quiz_questions res ⊆+ pool ∧
    length (QuizResult.quiz_questions res)
    = (if Py.truthy_int (num_questions a)
       then Z.to_nat (default 0 (num_questions a) `min` Z.of_nat (length pool))
       else length pool) ∧
    stdin w' = drop (length (QuizResult.quiz_questions res)) (stdin w) ∧
    fs w' = fs w.
Proof.
  intros a w pool.
  apply (main_flat a w (QuestionBank.mk [Sample.france])).
  - reflexivity.
  - simpl. lia.
  - simpl. lia.
  - simpl. lia.
  - intros n [= <-]. lia.
  - simpl. lia.
Defined.

(** X18: the program with a negative number of questions and no positive
    difficulty count stops with [ValueError] once the bank is loaded: no
    line is read and nothing changes. *)
Theorem main_negative_number a w b n :
  (QuestionBank.from_json (bank a) w).1 = Ok b →
  easy a ≤ 0 → medium a ≤ 0 → hard a ≤ 0 →
  num_questions a = Some n → n < 0 →
  main a w = (Raise ValueError, w).
Proof.
  intros Hload He Hm Hh Hn Hneg. rewrite (main_after_load a w b Hload).
  destruct (counts_of_facts a) as (_ & _ & _ & Hnil & _).
  rewrite (proj2 Hnil) by done.
  destruct (generate_flat_cases b (QuizConfig.mk [] (topic a))
              (num_questions a) w eq_refl)
    as [[_ ->]|[[(n' & Hn' & Hpos) _]|[Hn' _]]]; [done|..].
  - rewrite Hn in Hn'. injection Hn' as <-. lia.
  - rewrite Hn in Hn'. destruct Hn' as [?|[= ->]]; [done|lia].
Qed.

Lemma main_negative_number_witness :
  main {| bank := "questions.json"; topic := None; num_questions := Some (-1);
          easy := 0; medium := -3; hard := 0 |}
       (Sample.france_disk ["paris"])
  = (Raise ValueError, Sample.france_disk ["paris"]).
Proof.
  apply (main_negative_number _ (Sample.france_disk ["paris"])
           (QuestionBank.mk [Sample.france]) (-1));
    (reflexivity || (simpl; lia)).
Defined.

End program.

(** ** The bank file and the metrics file *)

Section files.

(** X19: a bank written with [to_json] and metrics written with
    [save_metrics] are both read back as written when their paths differ,
    and no other file changes; written to the same path, the metrics, which
    are written last, are what the file holds, and the bank cannot be read
    from it any more. *)
Theorem bank_and_metrics_files bank runner p p' w :
  let w1 := (QuestionBank.to_json bank p w).2 in
  let w2 := (save_metrics runner p' w1).2 in
  (load_metrics p' w2).1 = Ok runner ∧
  (p ≠ p' → (QuestionBank.from_json p w2).1 = Ok bank) ∧
  (p = p' → ∃ e, (QuestionBank.from_json p w2).1 = Raise e) ∧
  (∀ q, q ≠ p → q ≠ p' → fs w2 !! q = fs w !! q) ∧
  stdin w2 = stdin w ∧ random w2 = random w.
Proof.
  simpl. unfold load_metrics, QuestionBank.from_json. simpl.
  rewrite lookup_insert_eq. split; [done|]. split; [|split; [|split]].
  - intros Hne. rewrite lookup_insert_ne, lookup_insert_eq by done.
    by rewrite loads_dumps.
  - intros <-. rewrite lookup_insert_eq. by eauto.
  - intros q Hq Hq'. by rewrite !lookup_insert_ne.
  - done.
Qed.

Lemma bank_and_metrics_files_witness :
  (QuestionBank.from_json "questions.json"
     (save_metrics ∅ "metrics.pkl"
        (QuestionBank.to_json (QuestionBank.mk [Sample.france])
           "questions.json" (Sample.terminal [])).2).2).1
  = Ok (QuestionBank.mk [Sample.france]).
Proof.
  apply (bank_and_metrics_files (QuestionBank.mk [Sample.france]) ∅
           "questions.json" "metrics.pkl" (Sample.terminal [])).
  discriminate.
Defined.

Lemma get_app k kw kw' :
  Question.get k (kw ++ kw')
  = match Question.get k kw with
    | Some v => Some v
    | None => Question.get k kw'
    end.
Proof.
  induction kw as [|[k' v] kw IH]; simpl; [done|].
  by destruct (String.eqb k k').
Qed.

Lemma get_snoc_ne k k0 v kw :
  k ≠ k0 → Question.get k (kw ++ [(k0, v)]) = Question.get k kw.
Proof.
  intros Hne%String.eqb_neq. rewrite get_app. simpl. rewrite Hne.
  by destruct (Question.get k kw).
Qed.

Lemma get_snoc_eq k v kw :
  Question.get k kw = None → Question.get k (kw ++ [(k, v)]) = Some v.
Proof. intros Hk. rewrite get_app, Hk. simpl. by rewrite String.eqb_refl. Qed.

(** X20: for [choices], [correct] and [answer], a record that gives the
    field as [null] loads exactly as the record that leaves the field
    out. *)
Theorem init_null_is_absent kw k :
  k ∈ ["choices"; "correct"; "answer"] →
  Question.get k kw = None →
  Question.init (kw ++ [(k, JNull)]) = Question.init kw.
Proof.
  intros Hk Hget. unfold Question.init.
  rewrite fmap_app, forallb_app. simpl forallb at 2.
  assert (bool_decide (k ∈ Question.fields) = true) as ->.
  { apply bool_decide_eq_true. unfold Question.fields.
    apply elem_of_app. by right. }
  rewrite !andb_true_r.
  destruct (forallb (λ k0, bool_decide (k0 ∈ Question.fields)) kw.*1);
    [|done]. cbn [negb].
  unfold Question.required. cbn [forallb]. unfold Question.has.
  repeat (apply elem_of_cons in Hk as [->|Hk]);
    [..|by apply elem_of_nil in Hk];
    rewrite ?(get_snoc_ne "id"), ?(get_snoc_ne "question"),
      ?(get_snoc_ne "type"), ?(get_snoc_ne "difficulty"),
      ?(get_snoc_ne "topic"), ?(get_snoc_ne "tags"),
      ?(get_snoc_ne "explanation"), ?(get_snoc_ne "choices"),
      ?(get_snoc_ne "correct"), ?(get_snoc_ne "answer") by discriminate;
    rewrite get_snoc_eq, Hget by done; reflexivity.
Qed.

Lemma init_null_is_absent_witness :
  Question.init (Sample.mcq_bare ++ [("correct", JNull)])
  = Question.init Sample.mcq_bare.
Proof.
  apply (init_null_is_absent Sample.mcq_bare "correct"); [|reflexivity].
  apply (bool_decide_unpack _). by vm_compute.
Defined.

End files.

(** ** Loading a bank: which files fail, and what runs on the others *)

Section bank_loading.

Lemma init_all_raise l :
  (∃ e, QuestionBank.init_all l = Raise e) ↔
  Exists (λ j, ¬ Question.well_keyed j) l.
Proof.
  induction l as [|j l IH]; simpl.
  { split; [by intros [? ?]|by intros ?%Exists_nil]. }
  rewrite Exists_cons, <- IH. clear IH.
  destruct j as [| | | | |kw]; simpl;
    try (split; [intros _; left; tauto|by eauto]).
  rewrite <- init_raise.
  destruct (Question.init kw) as [q|e|];
    destruct (QuestionBank.init_all l) as [qs|e'|]; split;
    (by eauto) || (intros [[? ?]|[? ?]]; by eauto) || (by intros [? ?]).
Qed.

Lemma init_all_raise_TypeError l e :
  QuestionBank.init_all l = Raise e → e = TypeError.
Proof.
  revert e. induction l as [|j l IH]; intros e; simpl; [done|].
  destruct j as [| | | | |kw]; try congruence.
  destruct (Question.init kw) as [q|e0|] eqn:Hq.
  - destruct (QuestionBank.init_all l) as [qs|e'|]; try done.
    intros [= <-]. by apply IH.
  - intros [= <-]. by eapply init_raise_TypeError.
  - destruct (QuestionBank.init_all l) as [qs|e'|]; try done.
    intros [= <-]. by apply IH.
Qed.

Lemma init_sparse q : Question.init (Question.sparse q) = Ok q.
Proof.
  destruct q as [i qu ty d tp tg e [ch|] [co|] [an|]];
    unfold Question.init, Question.sparse, Question.opt_entry;
    cbn [Question.id Question.question Question.type Question.difficulty
         Question.topic Question.tags Question.explanation Question.choices
         Question.correct Question.answer app];
    (change (negb (forallb _ _)) with false at 1; cbn iota);
    (change (negb (forallb _ _)) with false at 1; cbn iota);
    cbn [Question.get String.eqb Ascii.eqb Bool.eqb mbind option_bind
         Question.as_int Question.as_str Question.as_opt fmap option_fmap
         option_map];
    rewrite ?as_strs_of_strs; reflexivity.
Qed.

Lemma init_all_sparse qs :
  QuestionBank.init_all (JObj ∘ Question.sparse <$> qs) = Ok qs.
Proof.
  induction qs as [|q qs IH]; [done|].
  rewrite fmap_cons. simpl. simpl in IH. by rewrite init_sparse, IH.
Qed.

(** A record with a value of another type than declared does not hide a
    later record that lacks a field: the load raises. *)
Example mistyped_then_incomplete :
  QuestionBank.loads
    (JObj [("questions",
            JList [JObj (Sample.common 1 "mcq" ++ [("answer", JInt 4)]);
                   JObj [("id", JInt 2)]])])
  = Raise TypeError.
Proof. reflexivity. Qed.

(** C2, amended: loading the bank fails exactly when some element of the
    "questions" list is no object, has a key that is no field of [Question],
    or lacks one of id, question, type, difficulty, topic, tags and
    explanation; the failure is the [TypeError] of the constructor, and the
    program ends there, before a question is asked.  A record without
    choices, correct or answer, or with them given as [null], builds the
    question with [None] in their place, and the correct index is stored as
    it is, whatever the choices: on a bank of such records the quiz runs,
    asking every question the topic admits. *)
Theorem loading_failures :
  (∀ path w data l,
     fs w !! path = Some (JsonFile data) →
     QuestionBank.records data = Ok l →
     ((∃ e, (QuestionBank.from_json path w).1 = Raise e) ↔
      Exists (λ j, ¬ Question.well_keyed j) l) ∧
     (∀ e, (QuestionBank.from_json path w).1 = Raise e → e = TypeError)) ∧
  (∀ a w e, (QuestionBank.from_json (bank a) w).1 = Raise e →
            main a w = (Raise e, w)) ∧
  (∀ q, Question.init (Question.sparse q) = Ok q) ∧
  (∀ q, Question.init (Question.dict q) = Ok q) ∧
  (∀ a w qs,
     fs w !! bank a
     = Some (JsonFile
               (JObj [("questions", JList (JObj ∘ Question.sparse <$> qs))])) →
     easy a ≤ 0 → medium a ≤ 0 → hard a ≤ 0 → num_questions a = None →
     (length qs ≤ length (stdin w))%nat →
     ∃ res w',
       main a w = (Ok res, w') ∧
       QuizQuestion.question <$> QuizResult.quiz_questions res
       ≡ₚ QuestionBank.filter (QuestionBank.mk qs) (topic a) None).
Proof.
  split; [|split; [apply main_load_error|split; [apply init_sparse|
            split; [apply init_dict|]]]].
  - intros path w data l Hfile Hrec.
    unfold QuestionBank.from_json, QuestionBank.loads.
    rewrite Hfile, Hrec. simpl. rewrite <- init_all_raise.
    destruct (QuestionBank.init_all l) as [qs|e|] eqn:Hl; split;
      try (split; [by intros [? ?]|by intros [? ?]]); try done.
    + split; by eauto.
    + intros e' [= <-]. by eapply init_all_raise_TypeError.
  - intros a w qs Hfile He Hm Hh Hnum Hlen.
    assert ((QuestionBank.from_json (bank a) w).1 = Ok (QuestionBank.mk qs))
      as Hload.
    { unfold QuestionBank.from_json, QuestionBank.loads. rewrite Hfile.
      simpl. by rewrite init_all_sparse. }
    rewrite (main_after_load a w _ Hload).
    destruct (counts_of_facts a) as (_ & _ & _ & Hnil & _).
    rewrite (proj2 Hnil) by done. rewrite Hnum.
    destruct (generate_flat_cases (QuestionBank.mk qs)
                (QuizConfig.mk [] (topic a)) None w eq_refl)
      as [[(n & Hn & _) _]|[[(n & Hn & _) _]
                           |[_ (sel & w1 & Hgen & Hperm & Hfs & Hin)]]];
      [done..|].
    rewrite Hgen.
    destruct (run_lines QuizRunner.init sel w1) as (qqs & Hrun & Hq).
    { rewrite Hin, Hperm.
      pose proof (submseteq_length _ _
                    (filter_questions (QuestionBank.mk qs) (topic a) None))
        as Hp.
      simpl in Hp. simpl. lia. }
    rewrite Hrun. eexists _, _. split; [reflexivity|]. simpl.
    by rewrite Hq.
Qed.

(** A bank with a record that has no "topic" stops the program before the
    first question. *)
Lemma loading_failures_witness :
  main Sample.no_args (Sample.on_disk Sample.no_topic_bank ["4"])
  = (Raise TypeError, Sample.on_disk Sample.no_topic_bank ["4"]).
Proof.
  apply (proj1 (proj2 loading_failures)). reflexivity.
Defined.

End bank_loading.
